(** * Homework1/preprocess.py: character-to-token alignment and sample assembly

    A shallow embedding of the preprocessing script that turns annotated
    documents into sequence-tagging and sequence-to-sequence records, and
    the properties of it that the specification states.

    Python values are modelled as follows.
    - [int] is [Z]; [str] is [string], one [ascii] per character; a list
      is a [list].
    - A JSON record (a [dict] read with [json.loads]) is a Rocq record; a key
      that may be missing is an [option] field, and [d[k]] on a missing key
      is the error [KeyError].
    - A two-element list [[a, b]] that the code unpacks into two names is a
      pair [(a, b)].
    - An exception is the [Err] branch of [result]; it propagates through
      the small error monad below, as an uncaught exception does.
    - The tokenizer ([utils.Tokenizer]) is used only through its interface,
      and is a record of functions and reserved indices.  Where the state
      of the tokenizer object matters, the builders are also given over a
      tokenizer with state, and related to the ones over functions. *)

From Stdlib Require Import ZArith List Bool Ascii String Lia.
Import ListNotations.

Local Open Scope Z_scope.
Local Open Scope list_scope.

Set Implicit Arguments.

(** ** Errors and the error monad *)

Inductive PyError : Type :=
| KeyError (key : string)
| IndexError.

Inductive result (A : Type) : Type :=
| Ok (a : A)
| Err (e : PyError).

Arguments Ok {A} a.
Arguments Err {A} e.

Definition bind {A B : Type} (m : result A) (k : A -> result B) : result B :=
  match m with
  | Ok a => k a
  | Err e => Err e
  end.

Notation "x <- m ;; k" := (bind m (fun x => k))
  (at level 61, m at next level, right associativity).
Notation "' pat <- m ;; k" := (bind m (fun x => match x with pat => k end))
  (at level 61, pat pattern, m at next level, right associativity).

(** ** Python primitives *)

(** [len(l)] *)
Definition len {A : Type} (l : list A) : Z := Z.of_nat (List.length l).

(** [range(n)] *)
Definition range (n : Z) : list Z := map Z.of_nat (seq 0 (Z.to_nat n)).

(** [sum(l)] *)
Definition sum (l : list Z) : Z := fold_right Z.add 0 l.

(** How a slice bound [i] is adjusted for a sequence of length [n]: a
    negative bound counts from the end, and the result is clipped to
    [0 .. n]. *)
Definition slice_index (n i : Z) : Z :=
  if i <? 0 then Z.max 0 (i + n) else Z.min i n.

(** [t[s:e]] on a string: total, never raises. *)
Definition str_slice (t : string) (s e : Z) : string :=
  let n := Z.of_nat (String.length t) in
  let lo := slice_index n s in
  let hi := slice_index n e in
  substring (Z.to_nat lo) (Z.to_nat (hi - lo)) t.

(** [l[i]] on a list: a negative index counts from the end; outside
    [-len(l) .. len(l) - 1] it raises [IndexError]. *)
Definition list_getitem {A : Type} (l : list A) (i : Z) : result A :=
  let j := if i <? 0 then i + len l else i in
  if (j <? 0) || (len l <=? j) then Err IndexError
  else match nth_error l (Z.to_nat j) with
       | Some a => Ok a
       | None => Err IndexError
       end.

(** [d[k]] on an optional key. *)
Definition dict_getitem {A : Type} (key : string) (v : option A) : result A :=
  match v with
  | Some a => Ok a
  | None => Err (KeyError key)
  end.

(** ** The tokenizer interface *)

Record Tokenizer : Type := {
  tokenize : string -> list string;
  encode : string -> list Z;
  pad_token_idx : Z;
  bos_token_idx : Z;
  eos_token_idx : Z
}.

(** ** Records *)

Module Sample.
(** One line of the JSON-lines input. *)
Record t : Type := make {
  id : string;
  text : string;
  sent_bounds : option (list (Z * Z));
  extractive_summary : option Z;
  summary : option string
}.
End Sample.

Module SeqTag.
(** The dict built by [process_seq_tag_samples]; [label] is set only
    when the sample has an [extractive_summary]. *)
Record t : Type := make {
  id : string;
  text : list Z;
  sent_range : list (Z * Z);
  label : option (list Z)
}.
End SeqTag.

Module Seq2Seq.
(** The dict built by [process_seq2seq_samples]; [summary] is set only
    when the sample has a [summary]. *)
Record t : Type := make {
  id : string;
  text : list Z;
  summary : option (list Z)
}.
End Seq2Seq.

(** ** get_tokens_range *)

(** The loop of [get_tokens_range], with its two variables [ranges] and
    [token_start] as explicit state. *)
Fixpoint get_tokens_range_loop (tokenizer : Tokenizer) (text : string)
    (bounds : list (Z * Z)) (ranges : list (Z * Z)) (token_start : Z)
  : list (Z * Z) :=
  match bounds with
  | [] => ranges
  | (char_start, char_end) :: rest =>
      let sent := str_slice text char_start char_end in
      let tokens_in_sent := tokenize tokenizer sent in
      let token_end := token_start + len tokens_in_sent in
      get_tokens_range_loop tokenizer text rest
        (ranges ++ [(token_start, token_end)]) token_end
  end.

Definition get_tokens_range (tokenizer : Tokenizer) (sample : Sample.t)
  : result (list (Z * Z)) :=
  bounds <- dict_getitem "sent_bounds" (Sample.sent_bounds sample) ;;
  Ok (get_tokens_range_loop tokenizer (Sample.text sample) bounds [] 0).

(** ** process_seq_tag_samples *)

(** The list comprehension that builds [processed['label']]. *)
Definition make_label (label_start label_end : Z) (n : Z) : list Z :=
  map (fun i => if (label_start <=? i) && (i <? label_end) then 1 else 0)
      (range n).

(** [not sample['sent_bounds']] for a list value. *)
Definition falsy {A : Type} (l : list A) : bool :=
  match l with
  | [] => true
  | _ :: _ => false
  end.

(** One pass through the body of the [for] loop: [Ok None] is [continue],
    [Ok (Some p)] reaches [processeds.append(p)], [Err e] is an uncaught
    exception. *)
Definition seq_tag_body (tokenizer : Tokenizer) (sample : Sample.t)
  : result (option SeqTag.t) :=
  bounds <- dict_getitem "sent_bounds" (Sample.sent_bounds sample) ;;
  if falsy bounds then Ok None
  else
    let p_id := Sample.id sample in
    let p_text := encode tokenizer (Sample.text sample) in
    p_sent_range <- get_tokens_range tokenizer sample ;;
    match Sample.extractive_summary sample with
    | Some es =>
        '(label_start, label_end) <- list_getitem p_sent_range es ;;
        let p_label := make_label label_start label_end (len p_text) in
        Ok (Some (SeqTag.make p_id p_text p_sent_range (Some p_label)))
    | None =>
        Ok (Some (SeqTag.make p_id p_text p_sent_range None))
    end.

Fixpoint process_seq_tag_loop (tokenizer : Tokenizer)
    (samples : list Sample.t) (processeds : list SeqTag.t)
  : result (list SeqTag.t) :=
  match samples with
  | [] => Ok processeds
  | sample :: rest =>
      step <- seq_tag_body tokenizer sample ;;
      match step with
      | None => process_seq_tag_loop tokenizer rest processeds
      | Some processed =>
          process_seq_tag_loop tokenizer rest (processeds ++ [processed])
      end
  end.

Definition process_seq_tag_samples (tokenizer : Tokenizer)
    (samples : list Sample.t) : result (list SeqTag.t) :=
  process_seq_tag_loop tokenizer samples [].

(** ** process_seq2seq_samples *)

Definition seq2seq_body (tokenizer : Tokenizer) (bos_idx eos_idx : Z)
    (sample : Sample.t) : Seq2Seq.t :=
  let p_id := Sample.id sample in
  let p_text := encode tokenizer (Sample.text sample) ++ [eos_idx] in
  match Sample.summary sample with
  | Some s =>
      Seq2Seq.make p_id p_text
        (Some ([bos_idx] ++ encode tokenizer s ++ [eos_idx]))
  | None => Seq2Seq.make p_id p_text None
  end.

Fixpoint process_seq2seq_loop (tokenizer : Tokenizer) (bos_idx eos_idx : Z)
    (samples : list Sample.t) (processeds : list Seq2Seq.t)
  : list Seq2Seq.t :=
  match samples with
  | [] => processeds
  | sample :: rest =>
      process_seq2seq_loop tokenizer bos_idx eos_idx rest
        (processeds ++ [seq2seq_body tokenizer bos_idx eos_idx sample])
  end.

Definition process_seq2seq_samples (tokenizer : Tokenizer)
    (samples : list Sample.t) : list Seq2Seq.t :=
  let bos_idx := bos_token_idx tokenizer in
  let eos_idx := eos_token_idx tokenizer in
  process_seq2seq_loop tokenizer bos_idx eos_idx samples [].

(** ** The dataset containers *)

Module SeqTaggingDataset.
Record t : Type := make {
  data : list SeqTag.t;
  padding : Z;
  max_text_len : Z
}.
End SeqTaggingDataset.

Module Seq2SeqDataset.
Record t : Type := make {
  data : list Seq2Seq.t;
  padding : Z;
  max_text_len : Z;
  max_summary_len : Z
}.
End Seq2SeqDataset.

(** Modelled from the spec: the truncation rule of the dataset classes,
    which live in [dataset.py] and are not among the sources.  A token
    sequence is truncated to [max_len] if longer and left as it is
    otherwise; truncation keeps the prefix and drops the suffix. *)
Definition truncate (tokens : list Z) (max_len : Z) : list Z :=
  if max_len <? len tokens then firstn (Z.to_nat max_len) tokens else tokens.

(** Modelled from the spec: the constructor [SeqTaggingDataset(samples,
    padding, max_text_len)] of [dataset.py], which is not among the
    sources.  It owns the processed records, the padding index and the
    length cap, and applies the truncation rule to the document tokens of
    every record. *)
Definition SeqTaggingDataset_init (samples : list SeqTag.t)
    (padding max_text_len : Z) : SeqTaggingDataset.t :=
  SeqTaggingDataset.make
    (map (fun r => SeqTag.make (SeqTag.id r)
                     (truncate (SeqTag.text r) max_text_len)
                     (SeqTag.sent_range r) (SeqTag.label r))
         samples)
    padding max_text_len.

(** Modelled from the spec: the constructor [Seq2SeqDataset(samples,
    padding, max_text_len, max_summary_len)] of [dataset.py], which is not
    among the sources.  The truncation rule applies to the document tokens
    against [max_text_len] and, independently, to the summary tokens
    against [max_summary_len]. *)
Definition Seq2SeqDataset_init (samples : list Seq2Seq.t)
    (padding max_text_len max_summary_len : Z) : Seq2SeqDataset.t :=
  Seq2SeqDataset.make
    (map (fun r => Seq2Seq.make (Seq2Seq.id r)
                     (truncate (Seq2Seq.text r) max_text_len)
                     (option_map (fun s => truncate s max_summary_len)
                                 (Seq2Seq.summary r)))
         samples)
    padding max_text_len max_summary_len.

(** [create_seq_tag_dataset] builds the container and pickles it to
    [save_path]; the result is the file written, as its path and content.
    The callers in [main] always pass [padding]. *)
Definition create_seq_tag_dataset (samples : list SeqTag.t)
    (save_path : string) (padding : Z) : string * SeqTaggingDataset.t :=
  let dataset := SeqTaggingDataset_init samples padding 300 in
  (save_path, dataset).

Definition create_seq2seq_dataset (samples : list Seq2Seq.t)
    (save_path : string) (padding : Z) : string * Seq2SeqDataset.t :=
  let dataset := Seq2SeqDataset_init samples padding 300 80 in
  (save_path, dataset).

(** ** main

    [main] works on files.  The file system is a map from paths to file
    contents, and a content is what the code reads from it or writes to
    it: a pickled object, or the records that the lines of a JSON-lines
    file parse to.  A statement of [main] is a function from the file
    system to the new file system and either a value or the exception
    that ended the run; logging is left out. *)

Inductive MainError : Type :=
| FileNotFoundError (path : string)
| BadFile (path : string)
| Raised (e : PyError).

Inductive outcome (A : Type) : Type :=
| Done (a : A)
| Failed (e : MainError).

Arguments Done {A} a.
Arguments Failed {A} e.

Section Main.

(** [utils.Embeddings]: the class is outside the sources. *)
Variable Embeddings : Type.

Inductive content : Type :=
| EmbeddingsPickle (embeddings : Embeddings)
| SeqTaggingPickle (dataset : SeqTaggingDataset.t)
| Seq2SeqPickle (dataset : Seq2SeqDataset.t)
| JsonLines (data : list Sample.t)
| OtherFile (bytes : string).

Definition files : Type := string -> option content.

Definition IO (A : Type) : Type := files -> files * outcome A.

Definition io_ret {A : Type} (a : A) : IO A := fun fs => (fs, Done a).

Definition io_raise {A : Type} (e : MainError) : IO A :=
  fun fs => (fs, Failed e).

Definition io_bind {A B : Type} (m : IO A) (k : A -> IO B) : IO B :=
  fun fs =>
    match m fs with
    | (fs', Done a) => k a fs'
    | (fs', Failed e) => (fs', Failed e)
    end.

Notation "x <~ m ;; k" := (io_bind m (fun x => k))
  (at level 61, m at next level, right associativity).

(** [os.path.exists(path)] *)
Definition path_exists (path : string) : IO bool :=
  fun fs =>
    match fs path with
    | Some _ => (fs, Done true)
    | None => (fs, Done false)
    end.

(** [open(path)] for reading, and the whole content. *)
Definition read_file (path : string) : IO content :=
  fun fs =>
    match fs path with
    | Some c => (fs, Done c)
    | None => (fs, Failed (FileNotFoundError path))
    end.

(** The file system with the file at [path] created or replaced. *)
Definition update (fs : files) (path : string) (c : content) : files :=
  fun p => if String.eqb p path then Some c else fs p.

(** [open(path, 'wb')] and [pickle.dump(obj, f)]. *)
Definition write_file (path : string) (c : content) : IO unit :=
  fun fs => (update fs path c, Done tt).

(** An exception of the builders, raised inside [main]. *)
Definition raise_of {A : Type} (r : result A) : IO A :=
  match r with
  | Ok a => io_ret a
  | Err e => io_raise (Raised e)
  end.

(** [pickle.load(f)] where the code goes on with an [Embeddings] object.
    On a file that holds something else the run fails; which exception
    Python raises then depends on the content and is not told apart. *)
Definition load_embeddings (path : string) : IO Embeddings :=
  c <~ read_file path ;;
  match c with
  | EmbeddingsPickle embeddings => io_ret embeddings
  | _ => io_raise (BadFile path)
  end.

(** [[json.loads(line) for line in f.readlines()]] *)
Definition load_json_lines (path : string) : IO (list Sample.t) :=
  c <~ read_file path ;;
  match c with
  | JsonLines data => io_ret data
  | _ => io_raise (BadFile path)
  end.

(** [Embeddings(path)], which reads the embeddings file and writes
    nothing, and [Tokenizer(embeddings.vocab)]: both are outside the
    sources. *)
Variable Embeddings_init : files -> string -> outcome Embeddings.
Variable Tokenizer_init : Embeddings -> Tokenizer.

(** The call [create_seq_tag_dataset(samples, save_path, padding)] with
    its write. *)
Definition dump_seq_tag_dataset (samples : list SeqTag.t)
    (save_path : string) (padding : Z) : IO unit :=
  let '(path, dataset) := create_seq_tag_dataset samples save_path padding in
  write_file path (SeqTaggingPickle dataset).

Definition dump_seq2seq_dataset (samples : list Seq2Seq.t)
    (save_path : string) (padding : Z) : IO unit :=
  let '(path, dataset) := create_seq2seq_dataset samples save_path padding in
  write_file path (Seq2SeqPickle dataset).

Definition main (embeddings_file : string) : IO unit :=
  let embedding_path := "./embedding.pkl"%string in
  cached <~ path_exists embedding_path ;;
  embeddings <~
    (if negb cached then
       embeddings <~ (fun fs => (fs, Embeddings_init fs embeddings_file)) ;;
       _ <~ write_file embedding_path (EmbeddingsPickle embeddings) ;;
       io_ret embeddings
     else load_embeddings embedding_path) ;;
  let tokenizer := Tokenizer_init embeddings in
  data <~ load_json_lines "./data/train.jsonl" ;;
  tagged <~ raise_of (process_seq_tag_samples tokenizer data) ;;
  _ <~ dump_seq_tag_dataset tagged "./data/seq_tag_train_dataset.pkl"
         (pad_token_idx tokenizer) ;;
  _ <~ dump_seq2seq_dataset (process_seq2seq_samples tokenizer data)
         "./data/seq2seq_train_dataset.pkl" (pad_token_idx tokenizer) ;;
  data <~ load_json_lines "./data/valid.jsonl" ;;
  tagged <~ raise_of (process_seq_tag_samples tokenizer data) ;;
  _ <~ dump_seq_tag_dataset tagged "./data/seq_tag_valid_dataset.pkl"
         (pad_token_idx tokenizer) ;;
  _ <~ dump_seq2seq_dataset (process_seq2seq_samples tokenizer data)
         "./data/seq2seq_valid_dataset.pkl" (pad_token_idx tokenizer) ;;
  data <~ load_json_lines "./data/test.jsonl" ;;
  tagged <~ raise_of (process_seq_tag_samples tokenizer data) ;;
  _ <~ dump_seq_tag_dataset tagged "./data/seq_tag_test_dataset.pkl"
         (pad_token_idx tokenizer) ;;
  _ <~ dump_seq2seq_dataset (process_seq2seq_samples tokenizer data)
         "./data/seq2seq_test_dataset.pkl" (pad_token_idx tokenizer) ;;
  io_ret tt.

End Main.

(** ** The builders over a tokenizer with state

    The tokenizer is an object, and a call of one of its methods may
    change it (a cache, a counter, a vocabulary that grows).  Here it has
    a state of its own: a method takes the state and returns its answer
    with the new state, and an attribute is read from the state.  The
    builders are the same code, with the state passed from one call to
    the next in the order of the calls; an exception leaves the state as
    it is at that point. *)

Record StatefulTokenizer (S : Type) : Type := {
  tokenize_st : string -> S -> list string * S;
  encode_st : string -> S -> list Z * S;
  pad_token_idx_st : S -> Z;
  bos_token_idx_st : S -> Z;
  eos_token_idx_st : S -> Z
}.

Fixpoint get_tokens_range_loop_st {S : Type} (tokenizer : StatefulTokenizer S)
    (text : string) (bounds : list (Z * Z)) (ranges : list (Z * Z))
    (token_start : Z) (s : S) : list (Z * Z) * S :=
  match bounds with
  | [] => (ranges, s)
  | (char_start, char_end) :: rest =>
      let sent := str_slice text char_start char_end in
      let '(tokens_in_sent, s1) := tokenize_st tokenizer sent s in
      let token_end := token_start + len tokens_in_sent in
      get_tokens_range_loop_st tokenizer text rest
        (ranges ++ [(token_start, token_end)]) token_end s1
  end.

Definition get_tokens_range_st {S : Type} (tokenizer : StatefulTokenizer S)
    (sample : Sample.t) (s : S) : result (list (Z * Z)) * S :=
  match dict_getitem "sent_bounds" (Sample.sent_bounds sample) with
  | Err e => (Err e, s)
  | Ok bounds =>
      let '(ranges, s1) :=
        get_tokens_range_loop_st tokenizer (Sample.text sample) bounds [] 0 s in
      (Ok ranges, s1)
  end.

Definition seq_tag_body_st {S : Type} (tokenizer : StatefulTokenizer S)
    (sample : Sample.t) (s : S) : result (option SeqTag.t) * S :=
  match dict_getitem "sent_bounds" (Sample.sent_bounds sample) with
  | Err e => (Err e, s)
  | Ok bounds =>
      if falsy bounds then (Ok None, s)
      else
        let p_id := Sample.id sample in
        let '(p_text, s1) := encode_st tokenizer (Sample.text sample) s in
        match get_tokens_range_st tokenizer sample s1 with
        | (Err e, s2) => (Err e, s2)
        | (Ok p_sent_range, s2) =>
            match Sample.extractive_summary sample with
            | Some es =>
                match list_getitem p_sent_range es with
                | Err e => (Err e, s2)
                | Ok (label_start, label_end) =>
                    let p_label :=
                      make_label label_start label_end (len p_text) in
                    (Ok (Some (SeqTag.make p_id p_text p_sent_range
                                 (Some p_label))), s2)
                end
            | None =>
                (Ok (Some (SeqTag.make p_id p_text p_sent_range None)), s2)
            end
        end
  end.

Fixpoint process_seq_tag_loop_st {S : Type} (tokenizer : StatefulTokenizer S)
    (samples : list Sample.t) (processeds : list SeqTag.t) (s : S)
  : result (list SeqTag.t) * S :=
  match samples with
  | [] => (Ok processeds, s)
  | sample :: rest =>
      match seq_tag_body_st tokenizer sample s with
      | (Err e, s1) => (Err e, s1)
      | (Ok None, s1) => process_seq_tag_loop_st tokenizer rest processeds s1
      | (Ok (Some processed), s1) =>
          process_seq_tag_loop_st tokenizer rest (processeds ++ [processed]) s1
      end
  end.

Definition process_seq_tag_samples_st {S : Type}
    (tokenizer : StatefulTokenizer S) (samples : list Sample.t) (s : S)
  : result (list SeqTag.t) * S :=
  process_seq_tag_loop_st tokenizer samples [] s.

Definition seq2seq_body_st {S : Type} (tokenizer : StatefulTokenizer S)
    (bos_idx eos_idx : Z) (sample : Sample.t) (s : S) : Seq2Seq.t * S :=
  let p_id := Sample.id sample in
  let '(text_ids, s1) := encode_st tokenizer (Sample.text sample) s in
  let p_text := text_ids ++ [eos_idx] in
  match Sample.summary sample with
  | Some summary =>
      let '(summary_ids, s2) := encode_st tokenizer summary s1 in
      (Seq2Seq.make p_id p_text (Some ([bos_idx] ++ summary_ids ++ [eos_idx])),
       s2)
  | None => (Seq2Seq.make p_id p_text None, s1)
  end.

Fixpoint process_seq2seq_loop_st {S : Type} (tokenizer : StatefulTokenizer S)
    (bos_idx eos_idx : Z) (samples : list Sample.t)
    (processeds : list Seq2Seq.t) (s : S) : list Seq2Seq.t * S :=
  match samples with
  | [] => (processeds, s)
  | sample :: rest =>
      let '(processed, s1) :=
        seq2seq_body_st tokenizer bos_idx eos_idx sample s in
      process_seq2seq_loop_st tokenizer bos_idx eos_idx rest
        (processeds ++ [processed]) s1
  end.

Definition process_seq2seq_samples_st {S : Type}
    (tokenizer : StatefulTokenizer S) (samples : list Sample.t) (s : S)
  : list Seq2Seq.t * S :=
  let bos_idx := bos_token_idx_st tokenizer s in
  let eos_idx := eos_token_idx_st tokenizer s in
  process_seq2seq_loop_st tokenizer bos_idx eos_idx samples [] s.

(** The two builders on one sample list, tagging first, as [main] calls
    them for a split. *)
Definition process_both_st {S : Type} (tokenizer : StatefulTokenizer S)
    (samples : list Sample.t) (s : S)
  : result (list SeqTag.t) * list Seq2Seq.t * S :=
  let '(tagged, s1) := process_seq_tag_samples_st tokenizer samples s in
  let '(seq2seq, s2) := process_seq2seq_samples_st tokenizer samples s1 in
  (tagged, seq2seq, s2).

(** ** Two concrete tokenizers

    They stand in for [utils.Tokenizer] when the definitions are run on
    concrete inputs. *)

Local Open Scope string_scope.

(** The pending word, as a list of zero or one tokens. *)
Definition flush (word : string) : list string :=
  match word with
  | EmptyString => []
  | _ => [word]
  end.

(** Words are separated by spaces, and a full stop is a token of its own. *)
Fixpoint split_words (s : string) (word : string) : list string :=
  match s with
  | EmptyString => flush word
  | String c rest =>
      if Ascii.eqb c " "%char then flush word ++ split_words rest EmptyString
      else if Ascii.eqb c "."%char then
        flush word ++ ["."] ++ split_words rest EmptyString
      else split_words rest (word ++ String c EmptyString)
  end.

Definition demo_vocab : list (string * Z) :=
  [("<pad>", 0); ("<s>", 1); ("</s>", 2); ("<unk>", 3); ("A", 4);
   ("cat", 5); ("sat", 6); (".", 7); ("It", 8); ("slept", 9)]%Z.

Fixpoint token_to_idx (vocab : list (string * Z)) (token : string) : Z :=
  match vocab with
  | [] => 3
  | (w, i) :: rest => if String.eqb w token then i else token_to_idx rest token
  end.

Definition word_tokenizer : Tokenizer := {|
  tokenize := fun s => split_words s EmptyString;
  encode := fun s => map (token_to_idx demo_vocab) (split_words s EmptyString);
  pad_token_idx := 0;
  bos_token_idx := 1;
  eos_token_idx := 2
|}.

(** Every character is a token, and its index is its character code. *)
Fixpoint chars (s : string) : list string :=
  match s with
  | EmptyString => []
  | String c rest => String c EmptyString :: chars rest
  end.

Fixpoint char_codes (s : string) : list Z :=
  match s with
  | EmptyString => []
  | String c rest => Z.of_nat (nat_of_ascii c) :: char_codes rest
  end.

Definition char_tokenizer : Tokenizer := {|
  tokenize := chars;
  encode := char_codes;
  pad_token_idx := 0;
  bos_token_idx := 1;
  eos_token_idx := 2
|}.

Local Close Scope string_scope.

(** The record of the specification's concrete scenario. *)
Definition d1 : Sample.t :=
  Sample.make "d1" "A cat sat. It slept." (Some [(0, 10); (11, 20)])
    (Some 1) None.

(** A sentence boundary that falls inside a word. *)
Definition cut_word : Sample.t :=
  Sample.make "d3" "ab" (Some [(0, 1); (1, 2)]) (Some 1) None.

(** A label index that counts from the end. *)
Definition from_the_end : Sample.t :=
  Sample.make "d4" "A cat sat. It slept." (Some [(0, 10); (11, 20)])
    (Some (-1)) None.

(** A record without sentence bounds, with a summary. *)
Definition no_bounds : Sample.t :=
  Sample.make "d5" "A cat sat." (Some []) None (Some "A cat."%string).

(** Two sentences that tile the whole text. *)
Definition whole_sentences : Sample.t :=
  Sample.make "d7" "A cat sat. It slept." (Some [(0, 10); (10, 20)])
    (Some 0) None.

(** Processed records with 301 document tokens. *)
Definition long_tagged : SeqTag.t :=
  SeqTag.make "d8" (repeat 4 300 ++ [7]) [(0, 301)] None.

Definition long_seq2seq : Seq2Seq.t :=
  Seq2Seq.make "d8" (repeat 4 300 ++ [2]) None.

(** A sample of a test split: sentence bounds, no label, no summary. *)
Definition unlabelled : Sample.t :=
  Sample.make "d9" "It slept. A cat sat." (Some [(0, 9); (10, 20)]) None None.

(** A label index past the last sentence. *)
Definition past_the_end : Sample.t :=
  Sample.make "d6" "A cat sat. It slept." (Some [(0, 10); (11, 20)])
    (Some 2) None.

(** A sample without the [sent_bounds] key. *)
Definition no_key : Sample.t :=
  Sample.make "d10" "A cat sat." None None (Some "A cat."%string).

(** A small world for [main]: the embeddings are a unit value, the
    embeddings file has to exist, and the tokenizer is the word
    tokenizer. *)
Definition demo_Embeddings_init (fs : files unit) (path : string)
  : outcome unit :=
  match fs path with
  | Some _ => Done tt
  | None => Failed (FileNotFoundError path)
  end.

Definition demo_Tokenizer_init (_ : unit) : Tokenizer := word_tokenizer.

Definition demo_files (valid : list Sample.t) : files unit :=
  fun p =>
    if String.eqb p "glove.txt" then Some (OtherFile unit "the 0.1 0.2")
    else if String.eqb p "./data/train.jsonl" then
      Some (JsonLines unit [d1; no_bounds])
    else if String.eqb p "./data/valid.jsonl" then Some (JsonLines unit valid)
    else if String.eqb p "./data/test.jsonl" then
      Some (JsonLines unit [unlabelled])
    else None.

Definition demo_main : string -> IO unit unit :=
  main demo_Embeddings_init demo_Tokenizer_init.

(** The word tokenizer as an object that counts the calls of its methods:
    its state changes, its answers do not. *)
Definition counting_tokenizer : StatefulTokenizer nat := {|
  tokenize_st := fun x calls => (tokenize word_tokenizer x, S calls);
  encode_st := fun x calls => (encode word_tokenizer x, S calls);
  pad_token_idx_st := fun _ => 0;
  bos_token_idx_st := fun _ => 1;
  eos_token_idx_st := fun _ => 2
|}.

(** A tokenizer whose answers depend on its state: every word seen by
    [encode] before is known, and a word not seen before is unknown. *)
Definition learning_tokenizer : StatefulTokenizer (list string) := {|
  tokenize_st := fun x seen => (split_words x EmptyString, seen);
  encode_st := fun x seen =>
    (map (fun w => if existsb (String.eqb w) seen
                   then token_to_idx demo_vocab w else 3)
         (split_words x EmptyString),
     split_words x EmptyString ++ seen);
  pad_token_idx_st := fun _ => 0;
  bos_token_idx_st := fun _ => 1;
  eos_token_idx_st := fun _ => 2
|}.

(** ** Notions the properties are stated with *)

(** The token count of one character span, tokenized in isolation. *)
Definition token_count (tokenizer : Tokenizer) (text : string)
    (span : Z * Z) : Z :=
  len (tokenize tokenizer (str_slice text (fst span) (snd span))).

(** The alignment algorithm in the words of the specification: keep a
    running token offset; for each character span [(s, e)] in input order
    tokenize [text[s:e]] on its own, let [k] be the token count, emit
    [(offset, offset + k)] and advance the offset by [k].  [align] is
    started at offset 0. *)
Fixpoint align (tokenizer : Tokenizer) (text : string)
    (spans : list (Z * Z)) (offset : Z) : list (Z * Z) :=
  match spans with
  | [] => []
  | (s, e) :: rest =>
      let k := len (tokenize tokenizer (str_slice text s e)) in
      (offset, offset + k) :: align tokenizer text rest (offset + k)
  end.

(** The sample has a [sent_bounds] list that is not empty. *)
Definition has_sent_bounds (sample : Sample.t) : bool :=
  match Sample.sent_bounds sample with
  | Some (_ :: _) => true
  | _ => false
  end.

(** [k] is an index Python accepts for a list of length [n]. *)
Definition valid_index (n k : Z) : bool := (- n <=? k) && (k <? n).

(** The samples on which the body of the tagging loop raises nothing: the
    [sent_bounds] key is there and, when a label is asked for, the index
    is one the list of ranges accepts. *)
Definition tag_well_formed (sample : Sample.t) : bool :=
  match Sample.sent_bounds sample with
  | None => false
  | Some [] => true
  | Some bounds =>
      match Sample.extractive_summary sample with
      | None => true
      | Some k => valid_index (len bounds) k
      end
  end.

(** The spans tile [from .. to]: each starts where the previous one ends,
    none is reversed, the first starts at [from] and the last ends at
    [to]. *)
Fixpoint partitions (spans : list (Z * Z)) (from to : Z) : bool :=
  match spans with
  | [] => from =? to
  | (s, e) :: rest => (s =? from) && (s <=? e) && partitions rest e to
  end.

(** The spans exactly partition the text: no gaps, no overlaps. *)
Definition exact_partition (text : string) (spans : list (Z * Z)) : bool :=
  partitions spans 0 (Z.of_nat (String.length text)).

(** The tokenizer cuts consistently at a span: tokenizing the text up to
    the end of the span gives as many tokens as tokenizing the text up to
    its start and the span on its own. *)
Definition cuts_consistently (tokenizer : Tokenizer) (text : string)
    (span : Z * Z) : bool :=
  len (tokenize tokenizer (str_slice text 0 (snd span))) =?
  len (tokenize tokenizer (str_slice text 0 (fst span)))
  + token_count tokenizer text span.

(** A tokenizer with state answers as the tokenizer [p] does, whatever
    its state: the same tokens, the same ids and the same sentinels.  How
    its state changes is left open. *)
Definition answers_as {S : Type} (tokenizer : StatefulTokenizer S)
    (p : Tokenizer) : Prop :=
  (forall x s, fst (tokenize_st tokenizer x s) = tokenize p x) /\
  (forall x s, fst (encode_st tokenizer x s) = encode p x) /\
  (forall s, bos_token_idx_st tokenizer s = bos_token_idx p) /\
  (forall s, eos_token_idx_st tokenizer s = eos_token_idx p).

(** The framing of one sequence-to-sequence record, as the specification
    words it. *)
Definition framed (tokenizer : Tokenizer) (sample : Sample.t)
    (r : Seq2Seq.t) : Prop :=
  let BOS := bos_token_idx tokenizer in
  let EOS := eos_token_idx tokenizer in
  Seq2Seq.id r = Sample.id sample /\
  Seq2Seq.text r = encode tokenizer (Sample.text sample) ++ [EOS] /\
  last (Seq2Seq.text r) 0 = EOS /\
  match Sample.summary sample with
  | Some s =>
      exists summary_tokens,
        Seq2Seq.summary r = Some summary_tokens /\
        summary_tokens = [BOS] ++ encode tokenizer s ++ [EOS] /\
        hd 0 summary_tokens = BOS /\
        last summary_tokens 0 = EOS /\
        removelast (tl summary_tokens) = encode tokenizer s
  | None => Seq2Seq.summary r = None
  end.

(** A token range moved by [t] tokens. *)
Definition shift (t : Z) (r : Z * Z) : Z * Z := (fst r + t, snd r + t).

(** Two samples that differ at most in their [summary]. *)
Definition same_for_tagging (s1 s2 : Sample.t) : Prop :=
  Sample.id s1 = Sample.id s2 /\
  Sample.text s1 = Sample.text s2 /\
  Sample.sent_bounds s1 = Sample.sent_bounds s2 /\
  Sample.extractive_summary s1 = Sample.extractive_summary s2.

(** Two samples that differ at most in their [sent_bounds] and
    [extractive_summary]. *)
Definition same_for_seq2seq (s1 s2 : Sample.t) : Prop :=
  Sample.id s1 = Sample.id s2 /\
  Sample.text s1 = Sample.text s2 /\
  Sample.summary s1 = Sample.summary s2.

(** The exception the body of the tagging loop raises on a sample that is
    not well formed. *)
Definition tag_error (sample : Sample.t) : PyError :=
  match Sample.sent_bounds sample with
  | None => KeyError "sent_bounds"
  | Some _ => IndexError
  end.

(** The record [r] is what the body of the tagging loop makes of
    [sample]: its id, its encoded text, its token ranges, and a label
    exactly when the sample has an [extractive_summary]. *)
Definition tagged_from (tokenizer : Tokenizer) (sample : Sample.t)
    (r : SeqTag.t) : Prop :=
  SeqTag.id r = Sample.id sample /\
  SeqTag.text r = encode tokenizer (Sample.text sample) /\
  get_tokens_range tokenizer sample = Ok (SeqTag.sent_range r) /\
  (SeqTag.label r = None <-> Sample.extractive_summary sample = None).

(** The paths [main] writes its datasets to, in the order of the writes. *)
Definition train_paths : list string :=
  ["./data/seq_tag_train_dataset.pkl"; "./data/seq2seq_train_dataset.pkl"]%string.

Definition valid_paths : list string :=
  ["./data/seq_tag_valid_dataset.pkl"; "./data/seq2seq_valid_dataset.pkl"]%string.

Definition test_paths : list string :=
  ["./data/seq_tag_test_dataset.pkl"; "./data/seq2seq_test_dataset.pkl"]%string.

(** Every path [main] may write to. *)
Definition written_paths : list string :=
  "./embedding.pkl"%string :: train_paths ++ valid_paths ++ test_paths.

(** [main] gets the embeddings [e]: from the cache, or, when there is no
    cache, from the embeddings file. *)
Definition embeddings_ready {Embeddings : Type}
    (Embeddings_init : files Embeddings -> string -> outcome Embeddings)
    (embeddings_file : string) (fs : files Embeddings) (e : Embeddings)
  : Prop :=
  fs "./embedding.pkl"%string = Some (EmbeddingsPickle e) \/
  (fs "./embedding.pkl"%string = None /\
   Embeddings_init fs embeddings_file = Done e).

(** Outside [paths] the two file systems hold the same. *)
Definition unchanged_outside {Embeddings : Type} (paths : list string)
    (fs fs' : files Embeddings) : Prop :=
  forall p, ~ In p paths -> fs' p = fs p.

(** A statement of [main] that creates or replaces no file outside
    [paths], whether it ends well or in an exception. *)
Definition writes_within {Embeddings A : Type} (paths : list string)
    (m : IO Embeddings A) : Prop :=
  forall fs, unchanged_outside paths fs (fst (m fs)).

(** The two artifacts of one split: the tagging dataset of the samples
    with sentence bounds and the sequence-to-sequence dataset of all
    samples, at the two paths. *)
Definition split_written {Embeddings : Type} (tokenizer : Tokenizer)
    (data : list Sample.t) (paths : list string)
    (fs : files Embeddings) : Prop :=
  exists tagged,
    process_seq_tag_samples tokenizer data = Ok tagged /\
    fs (nth 0 paths EmptyString)
    = Some (SeqTaggingPickle Embeddings
              (SeqTaggingDataset_init tagged (pad_token_idx tokenizer) 300)) /\
    fs (nth 1 paths EmptyString)
    = Some (Seq2SeqPickle Embeddings
              (Seq2SeqDataset_init (process_seq2seq_samples tokenizer data)
                 (pad_token_idx tokenizer) 300 80)).

(** * Properties *)

(** ** Python primitives *)

Lemma len_nonneg {A : Type} (l : list A) : 0 <= len l.
Proof. unfold len. lia. Qed.

Lemma len_app {A : Type} (l1 l2 : list A) : len (l1 ++ l2) = len l1 + len l2.
Proof. unfold len. rewrite length_app. lia. Qed.

Lemma slice_index_bounds (n i : Z) : 0 <= n -> 0 <= slice_index n i <= n.
Proof. unfold slice_index. destruct (i <? 0) eqn:E; lia. Qed.

Lemma substring_zero_length (t : string) (n : nat) :
  substring n 0 t = EmptyString.
Proof.
  revert n. induction t as [|c t IH]; intros [|n]; simpl; auto.
Qed.

Lemma substring_length_le (t : string) (n m : nat) :
  (String.length (substring n m t) <= String.length t)%nat.
Proof.
  revert n m. induction t as [|c t IH]; intros n m.
  - destruct n, m; simpl; lia.
  - destruct n as [|n].
    + destruct m as [|m]; simpl; [lia|]. specialize (IH 0%nat m). lia.
    + simpl. specialize (IH n m). lia.
Qed.

Lemma substring_whole (t : string) :
  substring 0 (String.length t) t = t.
Proof. induction t as [|c t IH]; simpl; [reflexivity | now rewrite IH]. Qed.

(** A span whose two offsets are equal selects the empty string. *)
Lemma str_slice_empty_span (t : string) (s : Z) :
  str_slice t s s = EmptyString.
Proof.
  unfold str_slice. rewrite Z.sub_diag. apply substring_zero_length.
Qed.

(** A slice is never longer than the string it is cut from. *)
Lemma str_slice_clipped (t : string) (s e : Z) :
  (String.length (str_slice t s e) <= String.length t)%nat.
Proof. unfold str_slice. apply substring_length_le. Qed.

Lemma str_slice_whole (t : string) :
  str_slice t 0 (Z.of_nat (String.length t)) = t.
Proof.
  unfold str_slice, slice_index. simpl (0 <? 0).
  destruct (Z.of_nat (String.length t) <? 0) eqn:E;
    [apply Z.ltb_lt in E; lia|].
  rewrite Z.min_id, Z.min_l, Z.sub_0_r, Nat2Z.id by lia.
  apply substring_whole.
Qed.

Lemma list_getitem_valid {A : Type} (l : list A) (k : Z) :
  valid_index (len l) k = true -> exists a, list_getitem l k = Ok a.
Proof.
  unfold valid_index, list_getitem. intros H.
  apply andb_true_iff in H. destruct H as [H1 H2].
  apply Z.leb_le in H1. apply Z.ltb_lt in H2.
  set (j := if k <? 0 then k + len l else k).
  assert (Hj : 0 <= j < len l) by (subst j; destruct (k <? 0) eqn:E; lia).
  replace (j <? 0) with false by (symmetry; apply Z.ltb_ge; lia).
  replace (len l <=? j) with false by (symmetry; apply Z.leb_gt; lia).
  simpl.
  destruct (nth_error l (Z.to_nat j)) eqn:E; [eauto|].
  apply nth_error_None in E. unfold len in Hj. lia.
Qed.

Lemma list_getitem_invalid {A : Type} (l : list A) (k : Z) :
  valid_index (len l) k = false -> list_getitem l k = Err IndexError.
Proof.
  unfold valid_index, list_getitem. intros H.
  apply andb_false_iff in H.
  set (j := if k <? 0 then k + len l else k).
  assert (Hj : j < 0 \/ len l <= j).
  { subst j. pose proof (len_nonneg l).
    destruct H as [H|H]; [apply Z.leb_gt in H | apply Z.ltb_ge in H];
      destruct (k <? 0) eqn:E; lia. }
  destruct Hj as [Hj|Hj].
  - replace (j <? 0) with true by (symmetry; apply Z.ltb_lt; lia).
    reflexivity.
  - replace (len l <=? j) with true by (symmetry; apply Z.leb_le; lia).
    now rewrite orb_true_r.
Qed.

(** What a successful [l[k]] returns: the element at [k], or at
    [k + len(l)] when [k] is negative. *)
Lemma list_getitem_Ok {A : Type} (l : list A) (k : Z) (a : A) :
  list_getitem l k = Ok a ->
  valid_index (len l) k = true /\
  nth_error l (Z.to_nat (if k <? 0 then k + len l else k)) = Some a.
Proof.
  intros H. destruct (valid_index (len l) k) eqn:V.
  - split; [reflexivity|]. unfold list_getitem in H.
    destruct ((_ <? 0) || _); [discriminate|].
    destruct (nth_error l _); congruence.
  - rewrite (list_getitem_invalid _ _ V) in H. discriminate.
Qed.

(** ** The alignment loop *)

Section Alignment.

Variable tokenizer : Tokenizer.
Variable text : string.

Local Abbreviation count := (token_count tokenizer text).

(** The loop appends to [ranges] what the specification's algorithm
    emits from the current offset. *)
Lemma get_tokens_range_loop_align (bounds ranges : list (Z * Z)) (start : Z) :
  get_tokens_range_loop tokenizer text bounds ranges start
  = ranges ++ align tokenizer text bounds start.
Proof.
  revert ranges start.
  induction bounds as [|[s e] rest IH]; intros ranges start; simpl.
  - now rewrite app_nil_r.
  - rewrite IH, <- app_assoc. reflexivity.
Qed.

Lemma align_length (bounds : list (Z * Z)) (offset : Z) :
  List.length (align tokenizer text bounds offset) = List.length bounds.
Proof.
  revert offset. induction bounds as [|[s e] rest IH]; intros; simpl; auto.
Qed.

Lemma token_count_nonneg (span : Z * Z) : 0 <= count span.
Proof. apply len_nonneg. Qed.

(** The [i]-th span starts at the offset plus the token counts of the
    spans before it, and is as long as its own token count. *)
Lemma align_nth (bounds : list (Z * Z)) (offset : Z) (i : nat) (span : Z * Z) :
  nth_error bounds i = Some span ->
  nth_error (align tokenizer text bounds offset) i
  = Some (offset + sum (map count (firstn i bounds)),
          offset + sum (map count (firstn i bounds)) + count span).
Proof.
  revert offset i.
  induction bounds as [|[s e] rest IH]; intros offset i H.
  - destruct i; discriminate.
  - destruct i as [|i]; simpl in *.
    + injection H as <-. rewrite Z.add_0_r. reflexivity.
    + rewrite (IH _ _ H). unfold token_count. simpl.
      f_equal. f_equal; lia.
Qed.

Lemma align_head (bounds : list (Z * Z)) (offset : Z) (r : Z * Z) :
  nth_error (align tokenizer text bounds offset) 0 = Some r ->
  fst r = offset.
Proof.
  destruct bounds as [|[s e] rest]; simpl; [discriminate|].
  now intros [= <-].
Qed.

Lemma align_contiguous (bounds : list (Z * Z)) (offset : Z) (i : nat)
    (r r' : Z * Z) :
  nth_error (align tokenizer text bounds offset) i = Some r ->
  nth_error (align tokenizer text bounds offset) (S i) = Some r' ->
  fst r' = snd r.
Proof.
  revert offset i.
  induction bounds as [|[s e] rest IH]; intros offset i H H'.
  - destruct i; discriminate.
  - destruct i as [|i].
    + simpl in H. injection H as <-. simpl in H'.
      now apply align_head in H'.
    + simpl in H. change (nth_error (align tokenizer text ((s, e) :: rest) offset) (S (S i)))
        with (nth_error (align tokenizer text rest
                (offset + len (tokenize tokenizer (str_slice text s e)))) (S i)) in H'.
      eapply IH; eassumption.
Qed.

Lemma align_ordered (bounds : list (Z * Z)) (offset : Z) (r : Z * Z) :
  In r (align tokenizer text bounds offset) ->
  offset <= fst r <= snd r.
Proof.
  revert offset.
  induction bounds as [|[s e] rest IH]; intros offset H; simpl in H.
  - contradiction.
  - pose proof (len_nonneg (tokenize tokenizer (str_slice text s e))).
    destruct H as [<-|H]; simpl; [lia|].
    apply IH in H. lia.
Qed.

(** The end of the last range is the initial offset plus all the token
    counts. *)
Lemma align_last (bounds : list (Z * Z)) (offset : Z) (r : Z * Z) :
  nth_error (align tokenizer text bounds offset) (pred (List.length bounds))
  = Some r ->
  snd r = offset + sum (map count bounds).
Proof.
  revert offset.
  induction bounds as [|[s e] rest IH]; intros offset H.
  - discriminate.
  - destruct rest as [|span' rest'].
    + simpl in H. injection H as <-. simpl.
      unfold token_count. simpl. lia.
    + change (pred (List.length ((s, e) :: span' :: rest')))
        with (S (pred (List.length (span' :: rest')))) in H.
      simpl nth_error in H. apply IH in H. rewrite H.
      change (len (tokenize tokenizer (str_slice text s e)))
        with (count (s, e)).
      unfold sum. cbn [map fold_right]. lia.
Qed.

End Alignment.

(** ** get_tokens_range *)

Lemma get_tokens_range_Ok (tokenizer : Tokenizer) (sample : Sample.t)
    (bounds : list (Z * Z)) :
  Sample.sent_bounds sample = Some bounds ->
  get_tokens_range tokenizer sample
  = Ok (align tokenizer (Sample.text sample) bounds 0).
Proof.
  intros H. unfold get_tokens_range. rewrite H. simpl.
  now rewrite get_tokens_range_loop_align.
Qed.

(** C1.  On a sample with a [sent_bounds] list, [get_tokens_range] returns
    what the specification's algorithm computes: a running token offset
    that starts at 0 and, for each character span [(s, e)] in input order,
    the range [(offset, offset + k)], where [k] is the token count of
    [text[s:e]] tokenized on its own, after which the offset advances by
    [k].  There is one range per character span, the offset at a span is
    the sum of the token counts of the spans before it, and a span with
    [s = e] raises nothing and gives a range of length zero (for a
    tokenizer that finds no token in the empty string). *)
Theorem get_tokens_range_follows_spec (tokenizer : Tokenizer)
    (sample : Sample.t) (bounds : list (Z * Z)) :
  Sample.sent_bounds sample = Some bounds ->
  let text := Sample.text sample in
  exists ranges,
    get_tokens_range tokenizer sample = Ok ranges /\
    ranges = align tokenizer text bounds 0 /\
    List.length ranges = List.length bounds /\
    (forall i span,
       nth_error bounds i = Some span ->
       let offset := sum (map (token_count tokenizer text) (firstn i bounds)) in
       nth_error ranges i
       = Some (offset, offset + token_count tokenizer text span)) /\
    (tokenize tokenizer EmptyString = [] ->
     forall i s,
       nth_error bounds i = Some (s, s) ->
       exists offset, nth_error ranges i = Some (offset, offset)).
Proof.
  intros H text. exists (align tokenizer text bounds 0).
  split; [now apply get_tokens_range_Ok|].
  split; [reflexivity|].
  split; [apply align_length|].
  split.
  - intros i span Hi. cbv zeta.
    rewrite (align_nth tokenizer text bounds 0 i Hi). reflexivity.
  - intros Hempty i s Hi.
    rewrite (align_nth tokenizer text bounds 0 i Hi).
    unfold token_count at 3. simpl fst; simpl snd.
    rewrite str_slice_empty_span, Hempty.
    eexists. f_equal. f_equal. unfold len. simpl. lia.
Qed.

Lemma get_tokens_range_follows_spec_witness :
  let sample :=
    Sample.make "d2" "A cat sat. It slept." (Some [(0, 10); (10, 10); (11, 20)])
      None None in
  Sample.sent_bounds sample = Some [(0, 10); (10, 10); (11, 20)] /\
  exists ranges,
    get_tokens_range word_tokenizer sample = Ok ranges /\
    ranges = align word_tokenizer (Sample.text sample)
               [(0, 10); (10, 10); (11, 20)] 0 /\
    List.length ranges = 3%nat /\
    (forall i span,
       nth_error [(0, 10); (10, 10); (11, 20)] i = Some span ->
       let offset :=
         sum (map (token_count word_tokenizer (Sample.text sample))
                  (firstn i [(0, 10); (10, 10); (11, 20)])) in
       nth_error ranges i
       = Some (offset,
               offset + token_count word_tokenizer (Sample.text sample) span)) /\
    (tokenize word_tokenizer EmptyString = [] ->
     forall i s,
       nth_error [(0, 10); (10, 10); (11, 20)] i = Some (s, s) ->
       exists offset, nth_error ranges i = Some (offset, offset)).
Proof.
  intros sample. split; [reflexivity|].
  exact (get_tokens_range_follows_spec word_tokenizer sample eq_refl).
Defined.

(** C9.  On a sample with a [sent_bounds] list, the ranges that
    [get_tokens_range] returns are as many as the character spans and in
    their order (the [i]-th range is as long as the token count of the
    [i]-th span); the first range starts at token index 0; each further
    range starts exactly where the one before it ends; and every range has
    [0 <= start <= end]. *)
Theorem get_tokens_range_contiguous (tokenizer : Tokenizer)
    (sample : Sample.t) (bounds : list (Z * Z)) :
  Sample.sent_bounds sample = Some bounds ->
  exists ranges,
    get_tokens_range tokenizer sample = Ok ranges /\
    List.length ranges = List.length bounds /\
    (forall i span r,
       nth_error bounds i = Some span ->
       nth_error ranges i = Some r ->
       snd r - fst r = token_count tokenizer (Sample.text sample) span) /\
    (forall r, nth_error ranges 0 = Some r -> fst r = 0) /\
    (forall i r r',
       nth_error ranges i = Some r ->
       nth_error ranges (S i) = Some r' ->
       fst r' = snd r) /\
    (forall r, In r ranges -> 0 <= fst r <= snd r).
Proof.
  intros H. exists (align tokenizer (Sample.text sample) bounds 0).
  split; [now apply get_tokens_range_Ok|].
  split; [apply align_length|].
  split; [|split; [|split]].
  - intros i span r Hi Hr.
    rewrite (align_nth tokenizer _ bounds 0 i Hi) in Hr.
    injection Hr as <-. simpl. lia.
  - intros r Hr. now apply align_head in Hr.
  - intros i r r'. apply align_contiguous.
  - intros r Hr. now apply align_ordered in Hr.
Qed.

Lemma get_tokens_range_contiguous_witness :
  Sample.sent_bounds d1 = Some [(0, 10); (11, 20)] /\
  exists ranges,
    get_tokens_range word_tokenizer d1 = Ok ranges /\
    List.length ranges = 2%nat /\
    (forall i span r,
       nth_error [(0, 10); (11, 20)] i = Some span ->
       nth_error ranges i = Some r ->
       snd r - fst r = token_count word_tokenizer (Sample.text d1) span) /\
    (forall r, nth_error ranges 0 = Some r -> fst r = 0) /\
    (forall i r r',
       nth_error ranges i = Some r ->
       nth_error ranges (S i) = Some r' ->
       fst r' = snd r) /\
    (forall r, In r ranges -> 0 <= fst r <= snd r).
Proof.
  split; [reflexivity|].
  exact (get_tokens_range_contiguous word_tokenizer d1 eq_refl).
Defined.

(** C10.  Whatever integers the character spans hold (out of range,
    reversed, overlapping, out of order), [get_tokens_range] raises
    nothing and returns one range per span: the slice [text[s:e]] is
    defined for every pair of integers and is never longer than the text.
    With no label asked for, the whole body of the tagging loop raises
    nothing either. *)
Theorem get_tokens_range_never_fails (tokenizer : Tokenizer)
    (id text : string) (bounds : list (Z * Z)) (extractive_summary : option Z)
    (summary : option string) :
  (exists ranges,
     get_tokens_range tokenizer
       (Sample.make id text (Some bounds) extractive_summary summary)
     = Ok ranges /\
     List.length ranges = List.length bounds) /\
  (forall s e, (String.length (str_slice text s e) <= String.length text)%nat) /\
  (exists step,
     seq_tag_body tokenizer (Sample.make id text (Some bounds) None summary)
     = Ok step).
Proof.
  split; [|split].
  - exists (align tokenizer text bounds 0). split.
    + now apply get_tokens_range_Ok.
    + apply align_length.
  - apply str_slice_clipped.
  - unfold seq_tag_body. simpl. destruct bounds as [|b bs]; simpl; eauto.
Qed.

Example get_tokens_range_malformed :
  get_tokens_range char_tokenizer
    (Sample.make "x" "abcde" (Some [(-3, -1); (4, 2); (0, 100); (-9, 1)])
       None None)
  = Ok [(0, 2); (2, 2); (2, 7); (7, 8)].
Proof. reflexivity. Qed.

(** ** The body of the tagging loop *)

Section TaggingBody.

Variable tokenizer : Tokenizer.
Variable sample : Sample.t.

Local Abbreviation ranges bounds :=
  (align tokenizer (Sample.text sample) bounds 0).

Lemma seq_tag_body_no_key :
  Sample.sent_bounds sample = None ->
  seq_tag_body tokenizer sample = Err (KeyError "sent_bounds").
Proof. intros H. unfold seq_tag_body. now rewrite H. Qed.

Lemma seq_tag_body_skip :
  Sample.sent_bounds sample = Some [] ->
  seq_tag_body tokenizer sample = Ok None.
Proof. intros H. unfold seq_tag_body. now rewrite H. Qed.

Lemma seq_tag_body_unlabelled (bounds : list (Z * Z)) :
  Sample.sent_bounds sample = Some bounds ->
  bounds <> [] ->
  Sample.extractive_summary sample = None ->
  seq_tag_body tokenizer sample
  = Ok (Some (SeqTag.make (Sample.id sample)
                (encode tokenizer (Sample.text sample))
                (ranges bounds) None)).
Proof.
  intros H Hne Hes. unfold seq_tag_body.
  rewrite (get_tokens_range_Ok tokenizer sample H), H, Hes.
  destruct bounds; [congruence | reflexivity].
Qed.

Lemma seq_tag_body_labelled (bounds : list (Z * Z)) (k : Z) :
  Sample.sent_bounds sample = Some bounds ->
  bounds <> [] ->
  Sample.extractive_summary sample = Some k ->
  seq_tag_body tokenizer sample
  = ('(label_start, label_end) <- list_getitem (ranges bounds) k ;;
     Ok (Some (SeqTag.make (Sample.id sample)
                 (encode tokenizer (Sample.text sample))
                 (ranges bounds)
                 (Some (make_label label_start label_end
                          (len (encode tokenizer (Sample.text sample)))))))).
Proof.
  intros H Hne Hes. unfold seq_tag_body.
  rewrite (get_tokens_range_Ok tokenizer sample H), H, Hes.
  destruct bounds; [congruence | reflexivity].
Qed.

Lemma len_ranges (bounds : list (Z * Z)) : len (ranges bounds) = len bounds.
Proof. unfold len. now rewrite align_length. Qed.

(** A well-formed sample goes through the body without an exception. *)
Lemma seq_tag_body_well_formed :
  tag_well_formed sample = true ->
  exists step,
    seq_tag_body tokenizer sample = Ok step /\
    match step with
    | None => has_sent_bounds sample = false
    | Some r => has_sent_bounds sample = true /\ SeqTag.id r = Sample.id sample
    end.
Proof.
  unfold tag_well_formed, has_sent_bounds.
  destruct (Sample.sent_bounds sample) as [[|b bs]|] eqn:H; intros W;
    [| |discriminate].
  - exists None. split; [now apply seq_tag_body_skip | reflexivity].
  - destruct (Sample.extractive_summary sample) as [k|] eqn:Hes.
    + rewrite (seq_tag_body_labelled H ltac:(discriminate) Hes).
      rewrite <- len_ranges in W.
      destruct (list_getitem_valid _ _ W) as [[a b'] ->]. simpl.
      eexists. split; [reflexivity|]. simpl. auto.
    + rewrite (seq_tag_body_unlabelled H ltac:(discriminate) Hes).
      eexists. split; [reflexivity|]. simpl. auto.
Qed.

(** What the body returns, when it returns, tells whether the sample
    had sentence bounds. *)
Lemma seq_tag_body_Ok (step : option SeqTag.t) :
  seq_tag_body tokenizer sample = Ok step ->
  match step with
  | None => has_sent_bounds sample = false
  | Some r => has_sent_bounds sample = true /\ SeqTag.id r = Sample.id sample
  end.
Proof.
  unfold has_sent_bounds.
  destruct (Sample.sent_bounds sample) as [[|b bs]|] eqn:H.
  - rewrite (seq_tag_body_skip H). now intros [= <-].
  - destruct (Sample.extractive_summary sample) as [k|] eqn:Hes.
    + rewrite (seq_tag_body_labelled H ltac:(discriminate) Hes).
      destruct (list_getitem _ k) as [[a b']|e]; simpl; [|discriminate].
      intros [= <-]. simpl. auto.
    + rewrite (seq_tag_body_unlabelled H ltac:(discriminate) Hes).
      intros [= <-]. simpl. auto.
  - rewrite (seq_tag_body_no_key H). discriminate.
Qed.

End TaggingBody.

(** ** The tagging loop *)

Section TaggingLoop.

Variable tokenizer : Tokenizer.

(** The records appended by the loop carry, in order, the ids of the
    samples that have sentence bounds. *)
Lemma process_seq_tag_loop_ids (samples : list Sample.t)
    (processeds out : list SeqTag.t) :
  process_seq_tag_loop tokenizer samples processeds = Ok out ->
  map SeqTag.id out
  = map SeqTag.id processeds
    ++ map Sample.id (filter has_sent_bounds samples).
Proof.
  revert processeds.
  induction samples as [|sample rest IH]; intros processeds H; simpl in H.
  - injection H as <-. simpl. now rewrite app_nil_r.
  - destruct (seq_tag_body tokenizer sample) as [step|e] eqn:B;
      simpl in H; [|discriminate].
    apply seq_tag_body_Ok in B. simpl.
    destruct step as [r|].
    + destruct B as [-> Hid]. apply IH in H. rewrite H.
      rewrite map_app, <- app_assoc. simpl. now rewrite Hid.
    + rewrite B. now apply IH.
Qed.

(** On well-formed samples the loop runs to its end. *)
Lemma process_seq_tag_loop_total (samples : list Sample.t)
    (processeds : list SeqTag.t) :
  forallb tag_well_formed samples = true ->
  exists out, process_seq_tag_loop tokenizer samples processeds = Ok out.
Proof.
  revert processeds.
  induction samples as [|sample rest IH]; intros processeds H; simpl in *.
  - eauto.
  - apply andb_true_iff in H. destruct H as [W H].
    destruct (seq_tag_body_well_formed tokenizer sample W) as (step & -> & _).
    simpl. destruct step; now apply IH.
Qed.

(** An exception in the body leaves the loop: no list is returned. *)
Lemma process_seq_tag_loop_raises (before after : list Sample.t)
    (sample : Sample.t) (e : PyError) (processeds : list SeqTag.t) :
  seq_tag_body tokenizer sample = Err e ->
  (exists e', process_seq_tag_loop tokenizer (before ++ sample :: after)
                processeds = Err e') /\
  (forallb tag_well_formed before = true ->
   process_seq_tag_loop tokenizer (before ++ sample :: after) processeds
   = Err e).
Proof.
  intros B. revert processeds.
  induction before as [|s rest IH]; intros processeds; simpl.
  - rewrite B. simpl. eauto.
  - destruct (seq_tag_body tokenizer s) as [step|e0] eqn:Bs; simpl.
    + destruct step as [r|].
      * destruct (IH (processeds ++ [r])) as [H1 H2]. split; [assumption|].
        intros W. apply andb_true_iff in W. now apply H2.
      * destruct (IH processeds) as [H1 H2]. split; [assumption|].
        intros W. apply andb_true_iff in W. now apply H2.
    + split; [eauto|]. intros W. apply andb_true_iff in W.
      destruct W as [W _].
      destruct (seq_tag_body_well_formed tokenizer s W) as (step & E & _).
      congruence.
Qed.

End TaggingLoop.

(** ** The sequence-to-sequence loop *)

Lemma process_seq2seq_loop_map (tokenizer : Tokenizer) (bos_idx eos_idx : Z)
    (samples : list Sample.t) (processeds : list Seq2Seq.t) :
  process_seq2seq_loop tokenizer bos_idx eos_idx samples processeds
  = processeds ++ map (seq2seq_body tokenizer bos_idx eos_idx) samples.
Proof.
  revert processeds.
  induction samples as [|sample rest IH]; intros processeds; simpl.
  - now rewrite app_nil_r.
  - rewrite IH, <- app_assoc. reflexivity.
Qed.

Lemma process_seq2seq_samples_map (tokenizer : Tokenizer)
    (samples : list Sample.t) :
  process_seq2seq_samples tokenizer samples
  = map (seq2seq_body tokenizer (bos_token_idx tokenizer)
           (eos_token_idx tokenizer)) samples.
Proof. unfold process_seq2seq_samples. now rewrite process_seq2seq_loop_map. Qed.

Lemma seq2seq_body_id (tokenizer : Tokenizer) (bos_idx eos_idx : Z)
    (sample : Sample.t) :
  Seq2Seq.id (seq2seq_body tokenizer bos_idx eos_idx sample) = Sample.id sample.
Proof. unfold seq2seq_body. now destruct (Sample.summary sample). Qed.

(** ** Labels *)

Lemma sum_app (l1 l2 : list Z) : sum (l1 ++ l2) = sum l1 + sum l2.
Proof.
  unfold sum. induction l1 as [|x l1 IH]; simpl; [reflexivity|].
  rewrite IH. lia.
Qed.

Lemma make_label_length (label_start label_end n : Z) :
  0 <= n -> len (make_label label_start label_end n) = n.
Proof.
  intros H. unfold len, make_label, range.
  rewrite !length_map, length_seq. lia.
Qed.

Lemma make_label_nth (label_start label_end n i : Z) :
  0 <= i < n ->
  nth_error (make_label label_start label_end n) (Z.to_nat i)
  = Some (if (label_start <=? i) && (i <? label_end) then 1 else 0).
Proof.
  intros H. unfold make_label, range.
  rewrite !nth_error_map, nth_error_seq.
  destruct (Nat.ltb_spec (Z.to_nat i) (Z.to_nat n)) as [_|L]; [|lia].
  simpl. now rewrite Z2Nat.id by lia.
Qed.

(** The number of ones in a label: the part of the range that lies inside
    the text. *)
Lemma make_label_sum (label_start label_end n : Z) :
  0 <= label_start <= label_end ->
  0 <= n ->
  sum (make_label label_start label_end n)
  = Z.min label_end n - Z.min label_start n.
Proof.
  intros Hr Hn. unfold make_label, range.
  rewrite <- (Z2Nat.id n) at 2 3 by assumption.
  generalize (Z.to_nat n) as m. clear n Hn.
  induction m as [|m IH].
  - simpl. lia.
  - rewrite seq_S, !map_app, sum_app, IH. simpl.
    destruct (Z.leb_spec label_start (Z.of_nat m));
      destruct (Z.ltb_spec (Z.of_nat m) label_end); simpl; lia.
Qed.

(** C2, as the code has it.  For a sample with a non-empty [sent_bounds]
    list and an [extractive_summary] that indexes it, the body of the
    tagging loop produces a record whose label is as long as the encoded
    full text and holds 1 at position [i] exactly when
    [label_start <= i < label_end], for [(label_start, label_end)] the
    range at [extractive_summary], and 0 elsewhere.  The sum of the label
    is the part of that range that lies inside the encoded text,
    [min(label_end, n) - min(label_start, n)] for [n] the length of the
    encoded text; it is [label_end - label_start] when
    [label_end <= n]. *)
Theorem label_marks_selected_range (tokenizer : Tokenizer)
    (sample : Sample.t) (bounds : list (Z * Z)) (k : Z) :
  Sample.sent_bounds sample = Some bounds ->
  bounds <> [] ->
  Sample.extractive_summary sample = Some k ->
  valid_index (len bounds) k = true ->
  exists r label_start label_end label,
    seq_tag_body tokenizer sample = Ok (Some r) /\
    SeqTag.text r = encode tokenizer (Sample.text sample) /\
    list_getitem (SeqTag.sent_range r) k = Ok (label_start, label_end) /\
    SeqTag.label r = Some label /\
    len label = len (SeqTag.text r) /\
    (forall i, 0 <= i < len (SeqTag.text r) ->
       nth_error label (Z.to_nat i)
       = Some (if (label_start <=? i) && (i <? label_end) then 1 else 0)) /\
    sum label
    = Z.min label_end (len (SeqTag.text r))
      - Z.min label_start (len (SeqTag.text r)) /\
    (label_end <= len (SeqTag.text r) ->
     sum label = label_end - label_start).
Proof.
  intros H Hne Hes V.
  rewrite (seq_tag_body_labelled tokenizer sample H Hne Hes).
  rewrite <- (len_ranges tokenizer sample) in V.
  destruct (list_getitem_valid _ _ V) as [[a b] G]. rewrite G. simpl.
  set (n := len (encode tokenizer (Sample.text sample))).
  assert (Hn : 0 <= n) by apply len_nonneg.
  assert (Hab : 0 <= a <= b).
  { apply list_getitem_Ok in G. destruct G as [_ G].
    apply nth_error_In, align_ordered in G. exact G. }
  do 4 eexists. split; [reflexivity|]. simpl. fold n.
  split; [reflexivity|]. split; [exact G|]. split; [reflexivity|].
  split; [now apply make_label_length|].
  split; [intros i Hi; now apply make_label_nth|].
  split; [now apply make_label_sum|].
  intros Hb. rewrite make_label_sum by assumption. lia.
Qed.

Lemma label_marks_selected_range_witness :
  Sample.sent_bounds d1 = Some [(0, 10); (11, 20)] /\
  [(0, 10); (11, 20)] <> [] /\
  Sample.extractive_summary d1 = Some 1 /\
  valid_index (len [(0, 10); (11, 20)]) 1 = true /\
  exists r label_start label_end label,
    seq_tag_body word_tokenizer d1 = Ok (Some r) /\
    SeqTag.text r = encode word_tokenizer (Sample.text d1) /\
    list_getitem (SeqTag.sent_range r) 1 = Ok (label_start, label_end) /\
    SeqTag.label r = Some label /\
    len label = len (SeqTag.text r) /\
    (forall i, 0 <= i < len (SeqTag.text r) ->
       nth_error label (Z.to_nat i)
       = Some (if (label_start <=? i) && (i <? label_end) then 1 else 0)) /\
    sum label
    = Z.min label_end (len (SeqTag.text r))
      - Z.min label_start (len (SeqTag.text r)) /\
    (label_end <= len (SeqTag.text r) ->
     sum label = label_end - label_start).
Proof.
  split; [reflexivity|]. split; [discriminate|].
  split; [reflexivity|]. split; [reflexivity|].
  apply (@label_marks_selected_range word_tokenizer d1 [(0, 10); (11, 20)] 1);
    [reflexivity | discriminate | reflexivity | reflexivity].
Defined.

(** C2 as stated fails on the sum.  With a sentence boundary inside the
    word [ab], the two halves give one token each and the whole text gives
    one: the selected range is [(1, 2)], of length 1, the label is [[0]]
    and its sum is 0. *)
Lemma label_sum_is_not_range_length :
  process_seq_tag_samples word_tokenizer [cut_word]
  = Ok [SeqTag.make "d3" [3] [(0, 1); (1, 2)] (Some [0])] /\
  Sample.extractive_summary cut_word = Some 1 /\
  list_getitem [(0, 1); (1, 2)] 1 = Ok (1, 2) /\
  sum [0] <> 2 - 1.
Proof. repeat split. discriminate. Qed.

(** The concrete scenario of the specification. *)
Example concrete_scenario :
  process_seq_tag_samples word_tokenizer [d1]
  = Ok [SeqTag.make "d1" [4; 5; 6; 7; 8; 9; 7] [(0, 4); (4, 7)]
          (Some [0; 0; 0; 0; 1; 1; 1])].
Proof. reflexivity. Qed.

(** C5, as the code has it.  For a sample with a non-empty [sent_bounds]
    list of [n] spans and an [extractive_summary] of [k], the body of the
    tagging loop raises [IndexError] exactly when [k < -n] or [k >= n];
    then [process_seq_tag_samples] returns no list, whatever samples come
    before and after, and the exception is that [IndexError] when the
    samples before are well formed.  For [-n <= k < n] the body returns a
    record: a negative [k] selects the range at [k + n]. *)
Theorem invalid_label_index_raises (tokenizer : Tokenizer)
    (sample : Sample.t) (bounds : list (Z * Z)) (k : Z) :
  Sample.sent_bounds sample = Some bounds ->
  bounds <> [] ->
  Sample.extractive_summary sample = Some k ->
  (seq_tag_body tokenizer sample = Err IndexError
   <-> k < - len bounds \/ len bounds <= k) /\
  (k < - len bounds \/ len bounds <= k ->
   forall before after,
     (exists e,
        process_seq_tag_samples tokenizer (before ++ sample :: after) = Err e) /\
     (forallb tag_well_formed before = true ->
      process_seq_tag_samples tokenizer (before ++ sample :: after)
      = Err IndexError)) /\
  (- len bounds <= k < len bounds ->
   exists r range,
     seq_tag_body tokenizer sample = Ok (Some r) /\
     nth_error (SeqTag.sent_range r)
       (Z.to_nat (if k <? 0 then k + len bounds else k)) = Some range /\
     SeqTag.label r
     = Some (make_label (fst range) (snd range) (len (SeqTag.text r)))).
Proof.
  intros H Hne Hes.
  assert (Hbody := seq_tag_body_labelled tokenizer sample H Hne Hes).
  assert (Hlen := len_ranges tokenizer sample bounds).
  assert (Hinv : k < - len bounds \/ len bounds <= k ->
                 seq_tag_body tokenizer sample = Err IndexError).
  { intros Hk. rewrite Hbody, list_getitem_invalid; [reflexivity|].
    rewrite Hlen. unfold valid_index. apply andb_false_iff.
    destruct Hk; [left; apply Z.leb_gt | right; apply Z.ltb_ge]; lia. }
  assert (Hval : - len bounds <= k < len bounds ->
                 exists r range,
                   seq_tag_body tokenizer sample = Ok (Some r) /\
                   nth_error (SeqTag.sent_range r)
                     (Z.to_nat (if k <? 0 then k + len bounds else k))
                   = Some range /\
                   SeqTag.label r
                   = Some (make_label (fst range) (snd range)
                             (len (SeqTag.text r)))).
  { intros Hk.
    assert (V : valid_index (len (align tokenizer (Sample.text sample) bounds 0)) k
                = true).
    { rewrite Hlen. unfold valid_index. apply andb_true_iff.
      split; [apply Z.leb_le | apply Z.ltb_lt]; lia. }
    destruct (list_getitem_valid _ _ V) as [[a b] G].
    rewrite Hbody, G. simpl.
    apply list_getitem_Ok in G. destruct G as [_ G]. rewrite Hlen in G.
    do 2 eexists. split; [reflexivity|]. simpl. split; [exact G|reflexivity]. }
  split; [split|split].
  - intros E.
    destruct (Z.lt_ge_cases k (- len bounds)) as [L|L]; [now left|].
    destruct (Z.lt_ge_cases k (len bounds)) as [U|U]; [|now right].
    destruct (Hval (conj L U)) as (r & range & E' & _). congruence.
  - exact Hinv.
  - intros Hk before after. apply Hinv in Hk.
    exact (process_seq_tag_loop_raises tokenizer before after sample [] Hk).
  - exact Hval.
Qed.

Lemma invalid_label_index_raises_witness :
  let sample :=
    Sample.make "d6" "A cat sat. It slept." (Some [(0, 10); (11, 20)])
      (Some 2) None in
  Sample.sent_bounds sample = Some [(0, 10); (11, 20)] /\
  [(0, 10); (11, 20)] <> [] /\
  Sample.extractive_summary sample = Some 2 /\
  (2 < - len [(0, 10); (11, 20)] \/ len [(0, 10); (11, 20)] <= 2) /\
  process_seq_tag_samples word_tokenizer ([d1] ++ sample :: [no_bounds])
  = Err IndexError.
Proof.
  intros sample.
  split; [reflexivity|]. split; [discriminate|]. split; [reflexivity|].
  split; [right; unfold len; simpl; lia|].
  apply (@invalid_label_index_raises word_tokenizer sample
           [(0, 10); (11, 20)] 2 eq_refl ltac:(discriminate) eq_refl);
    [right; unfold len; simpl; lia | reflexivity].
Defined.

(** C5 as stated fails on negative indices.  With two sentence ranges and
    [extractive_summary = -1] nothing is raised: the record is emitted,
    labelled with the last range. *)
Lemma negative_label_index_is_accepted :
  Sample.extractive_summary from_the_end = Some (-1) /\
  -1 < 0 /\
  process_seq_tag_samples word_tokenizer [from_the_end]
  = Ok [SeqTag.make "d4" [4; 5; 6; 7; 8; 9; 7] [(0, 4); (4, 7)]
          (Some [0; 0; 0; 0; 1; 1; 1])].
Proof. repeat split. Qed.

(** ** Which records are kept *)

(** C3.  On well-formed samples [process_seq_tag_samples] returns a list,
    and that list holds, in order, one record for each sample whose
    [sent_bounds] list is not empty and none for the others: a sample is
    dropped exactly when its [sent_bounds] list is empty, and an id is in
    the list exactly when a sample with that id has sentence bounds.
    [process_seq2seq_samples] holds one record for every sample, in order,
    so every id is present there. *)
Theorem drop_policy (tokenizer : Tokenizer) (samples : list Sample.t) :
  forallb tag_well_formed samples = true ->
  exists tagged,
    process_seq_tag_samples tokenizer samples = Ok tagged /\
    map SeqTag.id tagged = map Sample.id (filter has_sent_bounds samples) /\
    (forall sample,
       In sample samples ->
       (has_sent_bounds sample = false
        <-> Sample.sent_bounds sample = Some [])) /\
    (forall id,
       In id (map SeqTag.id tagged)
       <-> exists sample,
             In sample samples /\ Sample.id sample = id /\
             Sample.sent_bounds sample <> Some []) /\
    map Seq2Seq.id (process_seq2seq_samples tokenizer samples)
    = map Sample.id samples /\
    (forall sample,
       In sample samples ->
       In (Sample.id sample)
          (map Seq2Seq.id (process_seq2seq_samples tokenizer samples))).
Proof.
  intros W.
  destruct (process_seq_tag_loop_total tokenizer samples [] W) as [tagged E].
  assert (Hwf : forall sample, In sample samples ->
                  (has_sent_bounds sample = false
                   <-> Sample.sent_bounds sample = Some [])).
  { intros sample Hin.
    assert (Ws : tag_well_formed sample = true)
      by (rewrite forallb_forall in W; now apply W).
    unfold tag_well_formed in Ws. unfold has_sent_bounds.
    destruct (Sample.sent_bounds sample) as [[|b bs]|];
      split; congruence. }
  assert (Hids : map SeqTag.id tagged
                 = map Sample.id (filter has_sent_bounds samples)).
  { now apply process_seq_tag_loop_ids in E. }
  assert (Hs2s : map Seq2Seq.id (process_seq2seq_samples tokenizer samples)
                 = map Sample.id samples).
  { rewrite process_seq2seq_samples_map, map_map.
    apply map_ext. intros s. apply seq2seq_body_id. }
  exists tagged. split; [exact E|]. split; [exact Hids|].
  split; [exact Hwf|]. split; [|split; [exact Hs2s|]].
  - intros id. rewrite Hids, in_map_iff. split.
    + intros (s & Hid & Hin). apply filter_In in Hin. destruct Hin as [Hin Hb].
      exists s. split; [assumption|]. split; [assumption|].
      intros Hempty. apply (Hwf s Hin) in Hempty. congruence.
    + intros (s & Hin & Hid & Hne). exists s. split; [assumption|].
      apply filter_In. split; [assumption|].
      destruct (has_sent_bounds s) eqn:Hb; [reflexivity|].
      apply (Hwf s Hin) in Hb. contradiction.
  - intros s Hin. rewrite Hs2s. now apply in_map.
Qed.

Lemma drop_policy_witness :
  forallb tag_well_formed [d1; no_bounds; from_the_end] = true /\
  exists tagged,
    process_seq_tag_samples word_tokenizer [d1; no_bounds; from_the_end]
    = Ok tagged /\
    map SeqTag.id tagged
    = map Sample.id (filter has_sent_bounds [d1; no_bounds; from_the_end]) /\
    map Seq2Seq.id
      (process_seq2seq_samples word_tokenizer [d1; no_bounds; from_the_end])
    = map Sample.id [d1; no_bounds; from_the_end].
Proof.
  split; [reflexivity|].
  destruct (@drop_policy word_tokenizer [d1; no_bounds; from_the_end] eq_refl)
    as (tagged & E & Hids & _ & _ & Hs2s & _).
  exists tagged. split; [exact E|]. split; [exact Hids | exact Hs2s].
Defined.

Example drop_policy_ids :
  (exists tagged,
     process_seq_tag_samples word_tokenizer [d1; no_bounds; from_the_end]
     = Ok tagged /\
     map SeqTag.id tagged = ["d1"; "d4"]%string) /\
  map Seq2Seq.id
    (process_seq2seq_samples word_tokenizer [d1; no_bounds; from_the_end])
  = ["d1"; "d5"; "d4"]%string.
Proof. split; [eexists; split; reflexivity | reflexivity]. Qed.

(** ** Sentinel framing *)

Lemma seq2seq_body_framed (tokenizer : Tokenizer) (sample : Sample.t) :
  framed tokenizer sample
    (seq2seq_body tokenizer (bos_token_idx tokenizer)
       (eos_token_idx tokenizer) sample).
Proof.
  unfold framed, seq2seq_body.
  destruct (Sample.summary sample) as [s|]; simpl.
  - repeat split; try apply last_last.
    eexists. split; [reflexivity|]. split; [reflexivity|].
    split; [reflexivity|].
    split.
    + change (bos_token_idx tokenizer
              :: encode tokenizer s ++ [eos_token_idx tokenizer])
        with ([bos_token_idx tokenizer]
              ++ encode tokenizer s ++ [eos_token_idx tokenizer]).
      rewrite app_assoc. apply last_last.
    + apply removelast_last.
  - repeat split. apply last_last.
Qed.

(** C4.  [process_seq2seq_samples] returns one record per sample, in
    order, and for each of them [text] is [encode(text)] followed by EOS,
    so its last element is EOS; when the sample has a summary, [summary]
    is BOS, then [encode(summary)], then EOS (first element BOS, last
    element EOS, [encode(summary)] in between); when it has none, the
    [summary] key is not set. *)
Theorem seq2seq_sentinel_framing (tokenizer : Tokenizer)
    (samples : list Sample.t) :
  Forall2 (framed tokenizer) samples
    (process_seq2seq_samples tokenizer samples).
Proof.
  rewrite process_seq2seq_samples_map.
  induction samples as [|sample rest IH]; simpl; constructor.
  - apply seq2seq_body_framed.
  - exact IH.
Qed.

Example seq2seq_sentinel_framing_run :
  process_seq2seq_samples word_tokenizer [d1; no_bounds]
  = [Seq2Seq.make "d1" [4; 5; 6; 7; 8; 9; 7; 2] None;
     Seq2Seq.make "d5" [4; 5; 6; 7; 2] (Some [1; 4; 5; 7; 2])].
Proof. reflexivity. Qed.

(** ** Alignment coverage *)

Section Coverage.

Variable tokenizer : Tokenizer.
Variable text : string.

Local Abbreviation prefix_count e :=
  (len (tokenize tokenizer (str_slice text 0 e))).

(** Along spans that tile [from .. to] and at which the tokenizer cuts
    consistently, the token counts add up to the tokens between [from]
    and [to]. *)
Lemma partition_counts (bounds : list (Z * Z)) (from to : Z) :
  partitions bounds from to = true ->
  forallb (cuts_consistently tokenizer text) bounds = true ->
  prefix_count from + sum (map (token_count tokenizer text) bounds)
  = prefix_count to.
Proof.
  revert from.
  induction bounds as [|[s e] rest IH]; intros from P C; simpl in *.
  - apply Z.eqb_eq in P. subst. unfold sum. simpl. lia.
  - apply andb_true_iff in P. destruct P as [P Prest].
    apply andb_true_iff in P. destruct P as [Ps _].
    apply Z.eqb_eq in Ps. subst s.
    apply andb_true_iff in C. destruct C as [C Crest].
    unfold cuts_consistently in C. simpl in C. apply Z.eqb_eq in C.
    specialize (IH e Prest Crest).
    unfold sum in *. simpl. lia.
Qed.

(** The first span of a tiling starts at 0, so cutting consistently
    there means that the empty prefix has no token. *)
Lemma partition_empty_prefix (bounds : list (Z * Z)) (to : Z) :
  bounds <> [] ->
  partitions bounds 0 to = true ->
  forallb (cuts_consistently tokenizer text) bounds = true ->
  prefix_count 0 = 0.
Proof.
  destruct bounds as [|[s e] rest]; [congruence|]. intros _ P C. simpl in *.
  apply andb_true_iff in P. destruct P as [P _].
  apply andb_true_iff in P. destruct P as [Ps _].
  apply Z.eqb_eq in Ps. subst s.
  apply andb_true_iff in C. destruct C as [C _].
  unfold cuts_consistently, token_count in C. simpl in C.
  apply Z.eqb_eq in C. lia.
Qed.

End Coverage.

(** C6, as the code has it.  For a sample whose non-empty [sent_bounds]
    list exactly partitions the text, the end of the last range,
    [sent_ranges[-1][1]], is the sum of the token counts of the spans
    tokenized one by one, for every tokenizer.  It equals the token count
    of [encode(text)] when the tokenizer cuts consistently at every span
    (the text up to the end of the span has as many tokens as the text up
    to its start and the span on its own) and [encode] gives as many ids
    as [tokenize] gives tokens. *)
Theorem alignment_coverage (tokenizer : Tokenizer) (sample : Sample.t)
    (bounds : list (Z * Z)) :
  let text := Sample.text sample in
  Sample.sent_bounds sample = Some bounds ->
  bounds <> [] ->
  exact_partition text bounds = true ->
  exists sent_ranges last_range,
    get_tokens_range tokenizer sample = Ok sent_ranges /\
    list_getitem sent_ranges (-1) = Ok last_range /\
    snd last_range = sum (map (token_count tokenizer text) bounds) /\
    (forallb (cuts_consistently tokenizer text) bounds = true ->
     len (encode tokenizer text) = len (tokenize tokenizer text) ->
     snd last_range = len (encode tokenizer text)).
Proof.
  intros text H Hne P.
  assert (V : valid_index (len (align tokenizer text bounds 0)) (-1) = true).
  { unfold valid_index, len. rewrite align_length.
    destruct bounds; [congruence|]. simpl List.length.
    apply andb_true_iff. split; [apply Z.leb_le | apply Z.ltb_lt]; lia. }
  destruct (list_getitem_valid _ _ V) as [last_range G].
  exists (align tokenizer text bounds 0), last_range.
  split; [now apply get_tokens_range_Ok|]. split; [exact G|].
  apply list_getitem_Ok in G. destruct G as [_ G].
  change (-1 <? 0) with true in G. cbv iota in G.
  replace (Z.to_nat (-1 + len (align tokenizer text bounds 0)))
    with (pred (List.length bounds)) in G
    by (unfold len; rewrite align_length; lia).
  apply align_last in G. rewrite G.
  split; [lia|]. intros C Henc.
  pose proof (partition_counts tokenizer text bounds 0 _ P C) as S.
  pose proof (@partition_empty_prefix tokenizer text bounds _ Hne P C) as E.
  cbv beta in S, E. rewrite str_slice_whole in S. lia.
Qed.

Lemma alignment_coverage_witness :
  (Sample.sent_bounds whole_sentences = Some [(0, 10); (10, 20)] /\
   [(0, 10); (10, 20)] <> [] /\
   exact_partition (Sample.text whole_sentences) [(0, 10); (10, 20)] = true /\
   forallb (cuts_consistently word_tokenizer (Sample.text whole_sentences))
     [(0, 10); (10, 20)] = true /\
   len (encode word_tokenizer (Sample.text whole_sentences))
   = len (tokenize word_tokenizer (Sample.text whole_sentences)) /\
   exists sent_ranges last_range,
     get_tokens_range word_tokenizer whole_sentences = Ok sent_ranges /\
     list_getitem sent_ranges (-1) = Ok last_range /\
     snd last_range
     = sum (map (token_count word_tokenizer (Sample.text whole_sentences))
              [(0, 10); (10, 20)]) /\
     snd last_range
     = len (encode word_tokenizer (Sample.text whole_sentences))) /\
  (Sample.sent_bounds cut_word = Some [(0, 1); (1, 2)] /\
   [(0, 1); (1, 2)] <> [] /\
   exact_partition (Sample.text cut_word) [(0, 1); (1, 2)] = true /\
   exists sent_ranges last_range,
     get_tokens_range word_tokenizer cut_word = Ok sent_ranges /\
     list_getitem sent_ranges (-1) = Ok last_range /\
     snd last_range
     = sum (map (token_count word_tokenizer (Sample.text cut_word))
              [(0, 1); (1, 2)])).
Proof.
  split.
  - split; [reflexivity|]. split; [discriminate|]. split; [reflexivity|].
    split; [reflexivity|]. split; [reflexivity|].
    destruct (@alignment_coverage word_tokenizer whole_sentences
                [(0, 10); (10, 20)] eq_refl ltac:(discriminate) eq_refl)
      as (sent_ranges & last_range & Hget & Hlast & Hsum & Henc).
    exists sent_ranges, last_range.
    split; [exact Hget|]. split; [exact Hlast|]. split; [exact Hsum|].
    exact (Henc eq_refl eq_refl).
  - split; [reflexivity|]. split; [discriminate|]. split; [reflexivity|].
    destruct (@alignment_coverage word_tokenizer cut_word
                [(0, 1); (1, 2)] eq_refl ltac:(discriminate) eq_refl)
      as (sent_ranges & last_range & Hget & Hlast & Hsum & _).
    exists sent_ranges, last_range.
    split; [exact Hget|]. split; [exact Hlast | exact Hsum].
Defined.

(** C6 as stated fails.  The spans [(0, 1)] and [(1, 2)] exactly partition
    the text [ab]; tokenized one by one they give two tokens, so the last
    range ends at 2, and the whole text encodes to one id. *)
Lemma alignment_coverage_fails_inside_a_word :
  Sample.sent_bounds cut_word = Some [(0, 1); (1, 2)] /\
  exact_partition (Sample.text cut_word) [(0, 1); (1, 2)] = true /\
  get_tokens_range word_tokenizer cut_word = Ok [(0, 1); (1, 2)] /\
  list_getitem [(0, 1); (1, 2)] (-1) = Ok (1, 2) /\
  len (encode word_tokenizer (Sample.text cut_word)) = 1 /\
  snd (1, 2) <> len (encode word_tokenizer (Sample.text cut_word)).
Proof. repeat split. discriminate. Qed.

(** ** Determinism *)

Section Determinism.

Variable St : Type.
Variable tokenizer : StatefulTokenizer St.
Variable p : Tokenizer.
Hypothesis answers : answers_as tokenizer p.

Lemma get_tokens_range_loop_st_answer (text : string)
    (bounds ranges : list (Z * Z)) (start : Z) (s : St) :
  fst (get_tokens_range_loop_st tokenizer text bounds ranges start s)
  = get_tokens_range_loop p text bounds ranges start.
Proof.
  destruct answers as (Htok & _).
  revert ranges start s.
  induction bounds as [|[cs ce] rest IH]; intros ranges start s; simpl.
  - reflexivity.
  - specialize (Htok (str_slice text cs ce) s).
    destruct (tokenize_st tokenizer (str_slice text cs ce) s) as [tokens s1].
    simpl in Htok. subst tokens. apply IH.
Qed.

Lemma get_tokens_range_st_answer (sample : Sample.t) (s : St) :
  fst (get_tokens_range_st tokenizer sample s) = get_tokens_range p sample.
Proof.
  unfold get_tokens_range_st, get_tokens_range.
  destruct (Sample.sent_bounds sample) as [bounds|]; simpl; [|reflexivity].
  pose proof (get_tokens_range_loop_st_answer (Sample.text sample) bounds [] 0 s)
    as H.
  destruct (get_tokens_range_loop_st tokenizer (Sample.text sample) bounds [] 0 s)
    as [ranges s1].
  simpl in *. now subst ranges.
Qed.

Lemma seq_tag_body_st_answer (sample : Sample.t) (s : St) :
  fst (seq_tag_body_st tokenizer sample s) = seq_tag_body p sample.
Proof.
  destruct answers as (_ & Henc & _).
  unfold seq_tag_body_st, seq_tag_body.
  destruct (Sample.sent_bounds sample) as [bounds|] eqn:Hb; simpl;
    [|reflexivity].
  destruct (falsy bounds); [reflexivity|].
  specialize (Henc (Sample.text sample) s).
  destruct (encode_st tokenizer (Sample.text sample) s) as [ids s1].
  simpl in Henc. subst ids.
  pose proof (get_tokens_range_st_answer sample s1) as H.
  destruct (get_tokens_range_st tokenizer sample s1) as [[ranges|e] s2];
    simpl in H; rewrite <- H; simpl; [|reflexivity].
  destruct (Sample.extractive_summary sample) as [k|]; [|reflexivity].
  destruct (list_getitem ranges k) as [[a b]|e]; reflexivity.
Qed.

Lemma process_seq_tag_loop_st_answer (samples : list Sample.t)
    (processeds : list SeqTag.t) (s : St) :
  fst (process_seq_tag_loop_st tokenizer samples processeds s)
  = process_seq_tag_loop p samples processeds.
Proof.
  revert processeds s.
  induction samples as [|sample rest IH]; intros processeds s; simpl.
  - reflexivity.
  - pose proof (seq_tag_body_st_answer sample s) as H.
    destruct (seq_tag_body_st tokenizer sample s) as [[[r|]|e] s1];
      simpl in H; rewrite <- H; simpl; [apply IH | apply IH | reflexivity].
Qed.

Lemma seq2seq_body_st_answer (bos_idx eos_idx : Z) (sample : Sample.t)
    (s : St) :
  fst (seq2seq_body_st tokenizer bos_idx eos_idx sample s)
  = seq2seq_body p bos_idx eos_idx sample.
Proof.
  destruct answers as (_ & Henc & _).
  unfold seq2seq_body_st, seq2seq_body.
  pose proof (Henc (Sample.text sample) s) as H1.
  destruct (encode_st tokenizer (Sample.text sample) s) as [ids s1].
  simpl in H1. subst ids.
  destruct (Sample.summary sample) as [summary|]; [|reflexivity].
  pose proof (Henc summary s1) as H2.
  destruct (encode_st tokenizer summary s1) as [ids s2].
  simpl in H2. now subst ids.
Qed.

Lemma process_seq2seq_loop_st_answer (bos_idx eos_idx : Z)
    (samples : list Sample.t) (processeds : list Seq2Seq.t) (s : St) :
  fst (process_seq2seq_loop_st tokenizer bos_idx eos_idx samples processeds s)
  = process_seq2seq_loop p bos_idx eos_idx samples processeds.
Proof.
  revert processeds s.
  induction samples as [|sample rest IH]; intros processeds s; simpl.
  - reflexivity.
  - pose proof (seq2seq_body_st_answer bos_idx eos_idx sample s) as H.
    destruct (seq2seq_body_st tokenizer bos_idx eos_idx sample s) as [r s1].
    simpl in H. subst r. apply IH.
Qed.

(** From any state, one run of the two builders returns what the builders
    return over the tokenizer as a function. *)
Lemma process_both_st_answer (samples : list Sample.t) (s : St) :
  fst (process_both_st tokenizer samples s)
  = (process_seq_tag_samples p samples, process_seq2seq_samples p samples).
Proof.
  unfold process_both_st, process_seq_tag_samples_st, process_seq_tag_samples.
  pose proof (process_seq_tag_loop_st_answer samples [] s) as H1.
  destruct (process_seq_tag_loop_st tokenizer samples [] s) as [tagged s1].
  simpl in H1. subst tagged.
  unfold process_seq2seq_samples_st, process_seq2seq_samples.
  destruct answers as (_ & _ & Hbos & Heos).
  rewrite (Hbos s1), (Heos s1).
  pose proof (process_seq2seq_loop_st_answer (bos_token_idx p)
                (eos_token_idx p) samples [] s1) as H2.
  destruct (process_seq2seq_loop_st tokenizer (bos_token_idx p)
              (eos_token_idx p) samples [] s1) as [seq2seq s2].
  simpl in H2. now subst seq2seq.
Qed.

End Determinism.

(** C7.  The tokenizer is an object with a state of its own, which its
    methods may change.  For every fixed tokenizer, one whose answers
    (tokens, ids, BOS and EOS) do not depend on that state, and every
    sample list, running the two builders twice in a row gives the same
    tagging result (the same records, field for field, or the same
    exception) and the same sequence-to-sequence records both times,
    whatever state the tokenizer starts in and however the first run
    leaves it.  The builders keep nothing from one run to the next and
    let nothing of the tokenizer's state into the records: both runs
    return what the builders compute from the sample list and the
    tokenizer's answers alone. *)
Theorem builders_deterministic (St : Type) (tokenizer : StatefulTokenizer St)
    (p : Tokenizer) (samples : list Sample.t) (s0 : St) :
  answers_as tokenizer p ->
  let first_run := process_both_st tokenizer samples s0 in
  let second_run := process_both_st tokenizer samples (snd first_run) in
  fst first_run = fst second_run /\
  fst first_run
  = (process_seq_tag_samples p samples, process_seq2seq_samples p samples).
Proof.
  intros answers first_run second_run. subst first_run second_run.
  rewrite !(process_both_st_answer answers). split; reflexivity.
Qed.

Lemma builders_deterministic_witness :
  let first_run := process_both_st counting_tokenizer [d1; no_bounds] 0%nat in
  let second_run :=
    process_both_st counting_tokenizer [d1; no_bounds] (snd first_run) in
  answers_as counting_tokenizer word_tokenizer /\
  snd first_run <> 0%nat /\
  fst first_run = fst second_run /\
  fst first_run
  = (process_seq_tag_samples word_tokenizer [d1; no_bounds],
     process_seq2seq_samples word_tokenizer [d1; no_bounds]).
Proof.
  intros first_run second_run.
  assert (answers : answers_as counting_tokenizer word_tokenizer)
    by (repeat split; reflexivity).
  split; [exact answers|]. split; [discriminate|].
  exact (@builders_deterministic nat counting_tokenizer word_tokenizer
           [d1; no_bounds] 0%nat answers).
Defined.

(** A tokenizer whose answers change with its state is not a fixed
    tokenizer, and then two runs differ: the first run of the learning
    tokenizer finds every word unknown, the second knows them all. *)
Example learning_tokenizer_runs_differ :
  let first_run := process_both_st learning_tokenizer [d1] [] in
  let second_run := process_both_st learning_tokenizer [d1] (snd first_run) in
  fst first_run
  = (Ok [SeqTag.make "d1" [3; 3; 3; 3; 3; 3; 3] [(0, 4); (4, 7)]
           (Some [0; 0; 0; 0; 1; 1; 1])],
     [Seq2Seq.make "d1" [4; 5; 6; 7; 8; 9; 7; 2] None]) /\
  fst second_run
  = (Ok [SeqTag.make "d1" [4; 5; 6; 7; 8; 9; 7] [(0, 4); (4, 7)]
           (Some [0; 0; 0; 0; 1; 1; 1])],
     [Seq2Seq.make "d1" [4; 5; 6; 7; 8; 9; 7; 2] None]) /\
  fst first_run <> fst second_run.
Proof. repeat split. discriminate. Qed.

(** ** Truncation *)

Lemma truncate_longer (tokens : list Z) (max_len : Z) :
  0 <= max_len < len tokens ->
  truncate tokens max_len = firstn (Z.to_nat max_len) tokens /\
  len (truncate tokens max_len) = max_len.
Proof.
  intros H. unfold truncate.
  replace (max_len <? len tokens) with true by (symmetry; apply Z.ltb_lt; lia).
  split; [reflexivity|].
  unfold len in *. rewrite length_firstn. lia.
Qed.

Lemma truncate_not_longer (tokens : list Z) (max_len : Z) :
  len tokens <= max_len -> truncate tokens max_len = tokens.
Proof.
  intros H. unfold truncate.
  now replace (max_len <? len tokens) with false
    by (symmetry; apply Z.ltb_ge; lia).
Qed.

(** C8.  [create_seq_tag_dataset] builds its container with a document
    cap of 300, and [create_seq2seq_dataset] with a document cap of 300
    and a summary cap of 80.  In both containers a record whose document
    tokens are more than 300 is stored, at its place in the list, with
    exactly 300 document tokens, the first 300 of the untruncated
    sequence. *)
Theorem truncation_boundary (tagged : list SeqTag.t)
    (seq2seq : list Seq2Seq.t) (tag_path seq2seq_path : string)
    (padding : Z) :
  let tag_dataset := snd (create_seq_tag_dataset tagged tag_path padding) in
  let seq2seq_dataset :=
    snd (create_seq2seq_dataset seq2seq seq2seq_path padding) in
  SeqTaggingDataset.max_text_len tag_dataset = 300 /\
  Seq2SeqDataset.max_text_len seq2seq_dataset = 300 /\
  Seq2SeqDataset.max_summary_len seq2seq_dataset = 80 /\
  (forall i r,
     nth_error tagged i = Some r ->
     300 < len (SeqTag.text r) ->
     exists stored,
       nth_error (SeqTaggingDataset.data tag_dataset) i = Some stored /\
       SeqTag.text stored = firstn 300 (SeqTag.text r) /\
       len (SeqTag.text stored) = 300) /\
  (forall i r,
     nth_error seq2seq i = Some r ->
     300 < len (Seq2Seq.text r) ->
     exists stored,
       nth_error (Seq2SeqDataset.data seq2seq_dataset) i = Some stored /\
       Seq2Seq.text stored = firstn 300 (Seq2Seq.text r) /\
       len (Seq2Seq.text stored) = 300).
Proof.
  simpl. repeat split.
  - intros i r Hi Hlong. rewrite nth_error_map, Hi. simpl.
    eexists. split; [reflexivity|]. simpl.
    destruct (@truncate_longer (SeqTag.text r) 300) as [E L]; [lia|].
    now rewrite E in *.
  - intros i r Hi Hlong. rewrite nth_error_map, Hi. simpl.
    eexists. split; [reflexivity|]. simpl.
    destruct (@truncate_longer (Seq2Seq.text r) 300) as [E L]; [lia|].
    now rewrite E in *.
Qed.

Lemma truncation_boundary_witness :
  nth_error [long_tagged] 0 = Some long_tagged /\
  300 < len (SeqTag.text long_tagged) /\
  nth_error [long_seq2seq] 0 = Some long_seq2seq /\
  300 < len (Seq2Seq.text long_seq2seq) /\
  (exists stored,
     nth_error (SeqTaggingDataset.data
                  (snd (create_seq_tag_dataset [long_tagged] "tag.pkl" 0))) 0
     = Some stored /\
     SeqTag.text stored = firstn 300 (SeqTag.text long_tagged) /\
     len (SeqTag.text stored) = 300) /\
  (exists stored,
     nth_error (Seq2SeqDataset.data
                  (snd (create_seq2seq_dataset [long_seq2seq] "s2s.pkl" 0))) 0
     = Some stored /\
     Seq2Seq.text stored = firstn 300 (Seq2Seq.text long_seq2seq) /\
     len (Seq2Seq.text stored) = 300).
Proof.
  assert (L1 : 300 < len (SeqTag.text long_tagged)) by (vm_compute; reflexivity).
  assert (L2 : 300 < len (Seq2Seq.text long_seq2seq)) by (vm_compute; reflexivity).
  destruct (truncation_boundary [long_tagged] [long_seq2seq] "tag.pkl"
              "s2s.pkl" 0) as (_ & _ & _ & T & S).
  split; [reflexivity|]. split; [exact L1|].
  split; [reflexivity|]. split; [exact L2|].
  split.
  - exact (T 0%nat long_tagged eq_refl L1).
  - exact (S 0%nat long_seq2seq eq_refl L2).
Defined.

(** * Further properties *)

(** ** When the tagging pass returns and when it raises *)

Lemma seq_tag_body_raises (tokenizer : Tokenizer) (sample : Sample.t) :
  tag_well_formed sample = false ->
  seq_tag_body tokenizer sample = Err (tag_error sample).
Proof.
  unfold tag_well_formed, tag_error.
  destruct (Sample.sent_bounds sample) as [[|b bs]|] eqn:H; intros W.
  - discriminate.
  - destruct (Sample.extractive_summary sample) as [k|] eqn:Hes;
      [|discriminate].
    rewrite (seq_tag_body_labelled tokenizer sample H ltac:(discriminate) Hes).
    rewrite list_getitem_invalid; [reflexivity|].
    now rewrite (len_ranges tokenizer sample).
  - now apply seq_tag_body_no_key.
Qed.

Lemma process_seq_tag_loop_Ok_well_formed (tokenizer : Tokenizer)
    (samples : list Sample.t) (processeds out : list SeqTag.t) :
  process_seq_tag_loop tokenizer samples processeds = Ok out ->
  forallb tag_well_formed samples = true.
Proof.
  revert processeds.
  induction samples as [|sample rest IH]; intros processeds H; simpl in *.
  - reflexivity.
  - destruct (tag_well_formed sample) eqn:W.
    + destruct (seq_tag_body tokenizer sample) as [[r|]|e]; simpl in H;
        [eapply IH; eassumption | eapply IH; eassumption | discriminate].
    + rewrite (seq_tag_body_raises tokenizer sample W) in H. discriminate.
Qed.

(** X1.  [process_seq_tag_samples] returns a list exactly when every
    sample is well formed: it has the [sent_bounds] key and, if its
    [sent_bounds] list is not empty and it has an [extractive_summary],
    that index is one the list of sentence ranges accepts. *)
Theorem tagging_returns_iff_well_formed (tokenizer : Tokenizer)
    (samples : list Sample.t) :
  (exists out, process_seq_tag_samples tokenizer samples = Ok out)
  <-> forallb tag_well_formed samples = true.
Proof.
  split.
  - intros [out H]. now apply process_seq_tag_loop_Ok_well_formed in H.
  - apply process_seq_tag_loop_total.
Qed.

Lemma tagging_returns_iff_well_formed_witness :
  forallb tag_well_formed [d1; no_bounds; unlabelled] = true /\
  exists out,
    process_seq_tag_samples word_tokenizer [d1; no_bounds; unlabelled] = Ok out.
Proof.
  split; [reflexivity|].
  apply (proj2 (tagging_returns_iff_well_formed word_tokenizer
                  [d1; no_bounds; unlabelled])).
  reflexivity.
Defined.

Lemma process_seq_tag_loop_Err (tokenizer : Tokenizer)
    (samples : list Sample.t) (processeds : list SeqTag.t) (e : PyError) :
  process_seq_tag_loop tokenizer samples processeds = Err e ->
  exists before sample after,
    samples = before ++ sample :: after /\
    forallb tag_well_formed before = true /\
    tag_well_formed sample = false /\
    e = tag_error sample.
Proof.
  revert processeds.
  induction samples as [|sample rest IH]; intros processeds H; simpl in H.
  - discriminate.
  - destruct (tag_well_formed sample) eqn:W.
    + assert (Hrest : exists acc,
                 process_seq_tag_loop tokenizer rest acc = Err e).
      { destruct (seq_tag_body_well_formed tokenizer sample W)
          as (step & E & _).
        rewrite E in H. simpl in H. destruct step; eauto. }
      destruct Hrest as [acc Hrest].
      destruct (IH _ Hrest) as (before & s & after & -> & Wb & Ws & He).
      exists (sample :: before), s, after.
      split; [reflexivity|]. split; [simpl; now rewrite W|]. now split.
    + rewrite (seq_tag_body_raises tokenizer sample W) in H.
      injection H as <-.
      exists [], sample, rest. repeat split. exact W.
Qed.

(** X2.  [process_seq_tag_samples] raises [e] exactly when [e] is the
    exception of the first sample that is not well formed:
    [KeyError('sent_bounds')] if that sample lacks the key, [IndexError]
    if its [extractive_summary] is out of range.  The samples after it
    play no part. *)
Theorem tagging_raises_the_first_error (tokenizer : Tokenizer)
    (samples : list Sample.t) (e : PyError) :
  process_seq_tag_samples tokenizer samples = Err e
  <-> exists before sample after,
        samples = before ++ sample :: after /\
        forallb tag_well_formed before = true /\
        tag_well_formed sample = false /\
        e = tag_error sample.
Proof.
  split.
  - apply process_seq_tag_loop_Err.
  - intros (before & sample & after & -> & Wb & Ws & ->).
    apply (process_seq_tag_loop_raises tokenizer before after sample []
             (seq_tag_body_raises tokenizer sample Ws)).
    exact Wb.
Qed.

Lemma tagging_raises_the_first_error_witness :
  process_seq_tag_samples word_tokenizer
    ([d1; no_bounds] ++ no_key :: [past_the_end])
  = Err (KeyError "sent_bounds").
Proof.
  apply (proj2 (tagging_raises_the_first_error word_tokenizer
                  ([d1; no_bounds] ++ no_key :: [past_the_end])
                  (KeyError "sent_bounds"))).
  exists [d1; no_bounds], no_key, [past_the_end].
  repeat split.
Defined.

(** ** What the tagging pass returns *)

Lemma seq_tag_body_tagged_from (tokenizer : Tokenizer) (sample : Sample.t)
    (r : SeqTag.t) :
  seq_tag_body tokenizer sample = Ok (Some r) ->
  tagged_from tokenizer sample r.
Proof.
  unfold tagged_from.
  destruct (Sample.sent_bounds sample) as [[|b bs]|] eqn:H.
  - rewrite (seq_tag_body_skip tokenizer sample H). discriminate.
  - rewrite (get_tokens_range_Ok tokenizer sample H).
    destruct (Sample.extractive_summary sample) as [k|] eqn:Hes.
    + rewrite (seq_tag_body_labelled tokenizer sample H ltac:(discriminate) Hes).
      destruct (list_getitem _ k) as [[a b']|e]; simpl; [|discriminate].
      intros [= <-]. simpl. repeat split; discriminate.
    + rewrite (seq_tag_body_unlabelled tokenizer sample H
                 ltac:(discriminate) Hes).
      intros [= <-]. simpl. repeat split; reflexivity.
  - rewrite (seq_tag_body_no_key tokenizer sample H). discriminate.
Qed.

Lemma process_seq_tag_loop_records (tokenizer : Tokenizer)
    (samples : list Sample.t) (processeds out : list SeqTag.t) :
  process_seq_tag_loop tokenizer samples processeds = Ok out ->
  exists new,
    out = processeds ++ new /\
    Forall2 (tagged_from tokenizer) (filter has_sent_bounds samples) new.
Proof.
  revert processeds.
  induction samples as [|sample rest IH]; intros processeds H; simpl in H.
  - injection H as <-. exists []. split; [now rewrite app_nil_r | constructor].
  - destruct (seq_tag_body tokenizer sample) as [step|e] eqn:B;
      simpl in H; [|discriminate].
    pose proof (seq_tag_body_Ok tokenizer sample B) as K. simpl.
    destruct step as [r|].
    + destruct K as [-> _]. apply IH in H. destruct H as (new & -> & F).
      exists (r :: new). split; [now rewrite <- app_assoc|].
      constructor; [now apply seq_tag_body_tagged_from | exact F].
    + rewrite K. now apply IH.
Qed.

(** X3.  When [process_seq_tag_samples] returns, its list holds, in the
    order of the input, one record for each sample with a non-empty
    [sent_bounds] list, and that record has the sample's id, the encoding
    of its text, the token ranges [get_tokens_range] gives for it, and a
    [label] key exactly when the sample has an [extractive_summary]. *)
Theorem tagged_records_follow_samples (tokenizer : Tokenizer)
    (samples : list Sample.t) (out : list SeqTag.t) :
  process_seq_tag_samples tokenizer samples = Ok out ->
  Forall2 (tagged_from tokenizer) (filter has_sent_bounds samples) out.
Proof.
  intros H. apply process_seq_tag_loop_records in H.
  destruct H as (new & -> & F). exact F.
Qed.

Lemma tagged_records_follow_samples_witness :
  exists out,
    process_seq_tag_samples word_tokenizer [d1; no_bounds; unlabelled] = Ok out /\
    Forall2 (tagged_from word_tokenizer) [d1; unlabelled] out.
Proof.
  eexists. split; [reflexivity|].
  exact (@tagged_records_follow_samples word_tokenizer
           [d1; no_bounds; unlabelled] _ eq_refl).
Defined.

(** ** The builders on a concatenation *)

Lemma process_seq_tag_loop_from (tokenizer : Tokenizer)
    (samples : list Sample.t) (processeds : list SeqTag.t) :
  process_seq_tag_loop tokenizer samples processeds
  = (out <- process_seq_tag_loop tokenizer samples [] ;;
     Ok (processeds ++ out)).
Proof.
  revert processeds.
  induction samples as [|sample rest IH]; intros processeds; simpl.
  - now rewrite app_nil_r.
  - destruct (seq_tag_body tokenizer sample) as [[r|]|e]; simpl.
    + rewrite (IH (processeds ++ [r])), (IH [r]).
      destruct (process_seq_tag_loop tokenizer rest []) as [out|e]; simpl;
        [now rewrite <- app_assoc | reflexivity].
    + apply IH.
    + reflexivity.
Qed.

Lemma process_seq_tag_loop_app (tokenizer : Tokenizer)
    (a b : list Sample.t) (processeds : list SeqTag.t) :
  process_seq_tag_loop tokenizer (a ++ b) processeds
  = (out <- process_seq_tag_loop tokenizer a processeds ;;
     process_seq_tag_loop tokenizer b out).
Proof.
  revert processeds.
  induction a as [|sample rest IH]; intros processeds; simpl.
  - reflexivity.
  - destruct (seq_tag_body tokenizer sample) as [[r|]|e]; simpl; auto.
Qed.

(** X4.  Both builders work sample by sample: on a list [a ++ b] the
    tagging pass returns the records of [a] followed by the records of
    [b], or raises what the pass on [a] raises or, if that one returns,
    what the pass on [b] raises; the sequence-to-sequence pass returns the
    records of [a] followed by the records of [b]. *)
Theorem builders_distribute_over_append (tokenizer : Tokenizer)
    (a b : list Sample.t) :
  process_seq_tag_samples tokenizer (a ++ b)
  = (out_a <- process_seq_tag_samples tokenizer a ;;
     out_b <- process_seq_tag_samples tokenizer b ;;
     Ok (out_a ++ out_b)) /\
  process_seq2seq_samples tokenizer (a ++ b)
  = process_seq2seq_samples tokenizer a ++ process_seq2seq_samples tokenizer b.
Proof.
  split.
  - unfold process_seq_tag_samples. rewrite process_seq_tag_loop_app.
    destruct (process_seq_tag_loop tokenizer a []) as [out_a|e]; simpl;
      [|reflexivity].
    apply process_seq_tag_loop_from.
  - rewrite !process_seq2seq_samples_map. apply map_app.
Qed.

Example builders_distribute_over_append_run :
  process_seq_tag_samples word_tokenizer ([d1; no_bounds] ++ [unlabelled])
  = Ok [SeqTag.make "d1" [4; 5; 6; 7; 8; 9; 7] [(0, 4); (4, 7)]
          (Some [0; 0; 0; 0; 1; 1; 1]);
        SeqTag.make "d9" [8; 9; 7; 4; 5; 6; 7] [(0, 3); (3, 7)] None] /\
  process_seq_tag_samples word_tokenizer ([d1] ++ [past_the_end])
  = Err IndexError /\
  process_seq_tag_samples word_tokenizer ([past_the_end] ++ [no_key])
  = Err IndexError.
Proof. repeat split. Qed.

(** ** More on the token ranges *)

Section Ranges.

Variable tokenizer : Tokenizer.
Variable text : string.

Lemma align_increasing (bounds : list (Z * Z)) (offset : Z) (i j : nat)
    (ri rj : Z * Z) :
  (i < j)%nat ->
  nth_error (align tokenizer text bounds offset) i = Some ri ->
  nth_error (align tokenizer text bounds offset) j = Some rj ->
  snd ri <= fst rj.
Proof.
  revert offset i j.
  induction bounds as [|[s e] rest IH]; intros offset i j L Hi Hj.
  - destruct i; discriminate.
  - destruct j as [|j]; [lia|]. simpl in Hj.
    destruct i as [|i]; simpl in Hi.
    + injection Hi as <-. simpl.
      apply nth_error_In, align_ordered in Hj. lia.
    + eapply IH; [|eassumption|eassumption]. lia.
Qed.

Lemma align_app (b1 b2 : list (Z * Z)) (offset : Z) :
  align tokenizer text (b1 ++ b2) offset
  = align tokenizer text b1 offset
    ++ align tokenizer text b2
         (offset + sum (map (token_count tokenizer text) b1)).
Proof.
  revert offset.
  induction b1 as [|[s e] rest IH]; intros offset; simpl.
  - unfold sum. simpl. now rewrite Z.add_0_r.
  - rewrite IH. unfold sum, token_count. simpl. now rewrite Z.add_assoc.
Qed.

Lemma align_shift (bounds : list (Z * Z)) (offset : Z) :
  align tokenizer text bounds offset
  = map (shift offset) (align tokenizer text bounds 0).
Proof.
  revert offset.
  induction bounds as [|[s e] rest IH]; intros offset; simpl.
  - reflexivity.
  - set (k := len (tokenize tokenizer (str_slice text s e))).
    rewrite (IH (offset + k)), (IH k), map_map.
    f_equal; [unfold shift; simpl; f_equal; lia|].
    apply map_ext. intros [a b]. unfold shift. simpl. f_equal; lia.
Qed.

End Ranges.

(** X5.  The token ranges [get_tokens_range] returns never overlap and
    come in increasing order, whatever the character spans are (also when
    those overlap or go backwards): a range ends at or before the start of
    every range after it. *)
Theorem token_ranges_never_overlap (tokenizer : Tokenizer)
    (sample : Sample.t) (bounds : list (Z * Z)) :
  Sample.sent_bounds sample = Some bounds ->
  exists ranges,
    get_tokens_range tokenizer sample = Ok ranges /\
    forall i j ri rj,
      (i < j)%nat ->
      nth_error ranges i = Some ri ->
      nth_error ranges j = Some rj ->
      snd ri <= fst rj.
Proof.
  intros H. exists (align tokenizer (Sample.text sample) bounds 0).
  split; [now apply get_tokens_range_Ok|].
  intros i j ri rj. apply align_increasing.
Qed.

Lemma token_ranges_never_overlap_witness :
  let sample :=
    Sample.make "d11" "A cat sat. It slept." (Some [(0, 20); (11, 20); (0, 10)])
      None None in
  Sample.sent_bounds sample = Some [(0, 20); (11, 20); (0, 10)] /\
  exists ranges,
    get_tokens_range word_tokenizer sample = Ok ranges /\
    forall i j ri rj,
      (i < j)%nat ->
      nth_error ranges i = Some ri ->
      nth_error ranges j = Some rj ->
      snd ri <= fst rj.
Proof.
  intros sample. split; [reflexivity|].
  exact (@token_ranges_never_overlap word_tokenizer sample
           [(0, 20); (11, 20); (0, 10)] eq_refl).
Defined.

(** X6.  The ranges of a span list [b1 ++ b2] are the ranges of [b1]
    followed by the ranges [b2] would get on its own, moved up by the
    number of tokens in the spans of [b1]: spans that come later change
    nothing in the ranges before them. *)
Theorem later_spans_are_shifted (tokenizer : Tokenizer) (id text : string)
    (b1 b2 : list (Z * Z)) (extractive_summary : option Z)
    (summary : option string) :
  exists r1 r2,
    get_tokens_range tokenizer
      (Sample.make id text (Some b1) extractive_summary summary) = Ok r1 /\
    get_tokens_range tokenizer
      (Sample.make id text (Some b2) extractive_summary summary) = Ok r2 /\
    get_tokens_range tokenizer
      (Sample.make id text (Some (b1 ++ b2)) extractive_summary summary)
    = Ok (r1 ++ map (shift (sum (map (token_count tokenizer text) b1))) r2).
Proof.
  exists (align tokenizer text b1 0), (align tokenizer text b2 0).
  split; [now apply get_tokens_range_Ok|].
  split; [now apply get_tokens_range_Ok|].
  unfold get_tokens_range. simpl.
  rewrite get_tokens_range_loop_align, align_app. simpl.
  now rewrite (align_shift tokenizer text b2 (sum _)).
Qed.

Example later_spans_are_shifted_run :
  get_tokens_range word_tokenizer
    (Sample.make "d12" "A cat sat. It slept."
       (Some ([(0, 10); (11, 20)] ++ [(0, 10); (11, 20)])) None None)
  = Ok ([(0, 4); (4, 7)] ++ [(7, 11); (11, 14)]).
Proof. reflexivity. Qed.

(** ** The fields a builder does not read *)

Lemma seq_tag_body_ignores_summary (tokenizer : Tokenizer)
    (s1 s2 : Sample.t) :
  same_for_tagging s1 s2 ->
  seq_tag_body tokenizer s1 = seq_tag_body tokenizer s2.
Proof.
  destruct s1, s2. unfold same_for_tagging. simpl.
  intros (-> & -> & -> & ->). reflexivity.
Qed.

Lemma seq2seq_body_ignores_bounds (tokenizer : Tokenizer)
    (bos_idx eos_idx : Z) (s1 s2 : Sample.t) :
  same_for_seq2seq s1 s2 ->
  seq2seq_body tokenizer bos_idx eos_idx s1
  = seq2seq_body tokenizer bos_idx eos_idx s2.
Proof.
  destruct s1, s2. unfold same_for_seq2seq. simpl.
  intros (-> & -> & ->). reflexivity.
Qed.

Lemma process_seq_tag_loop_ignores_summary (tokenizer : Tokenizer)
    (l1 l2 : list Sample.t) (processeds : list SeqTag.t) :
  Forall2 same_for_tagging l1 l2 ->
  process_seq_tag_loop tokenizer l1 processeds
  = process_seq_tag_loop tokenizer l2 processeds.
Proof.
  intros F. revert processeds.
  induction F as [|s1 s2 l1 l2 S F IH]; intros processeds; simpl.
  - reflexivity.
  - rewrite (seq_tag_body_ignores_summary tokenizer S).
    destruct (seq_tag_body tokenizer s2) as [[r|]|e]; simpl; auto.
Qed.

(** X7.  Each builder reads only its own fields.  The tagging pass gives
    the same result on two sample lists that differ only in [summary]
    values, and the sequence-to-sequence pass gives the same records on
    two sample lists that differ only in [sent_bounds] and
    [extractive_summary] values (so a missing or malformed [sent_bounds]
    never affects it). *)
Theorem builders_read_their_own_fields (tokenizer : Tokenizer)
    (l1 l2 : list Sample.t) :
  (Forall2 same_for_tagging l1 l2 ->
   process_seq_tag_samples tokenizer l1 = process_seq_tag_samples tokenizer l2) /\
  (Forall2 same_for_seq2seq l1 l2 ->
   process_seq2seq_samples tokenizer l1 = process_seq2seq_samples tokenizer l2).
Proof.
  split; intros F.
  - now apply process_seq_tag_loop_ignores_summary.
  - rewrite !process_seq2seq_samples_map.
    induction F as [|s1 s2 l1 l2 S F IH]; simpl; [reflexivity|].
    now rewrite IH, (seq2seq_body_ignores_bounds tokenizer _ _ S).
Qed.

Lemma builders_read_their_own_fields_witness :
  let other :=
    Sample.make "d10" "A cat sat." (Some [(0, 10)]) (Some 5)
      (Some "A cat."%string) in
  Forall2 same_for_seq2seq [no_key] [other] /\
  process_seq2seq_samples word_tokenizer [no_key]
  = process_seq2seq_samples word_tokenizer [other].
Proof.
  intros other.
  assert (F : Forall2 same_for_seq2seq [no_key] [other])
    by (repeat constructor).
  split; [exact F|].
  exact (proj2 (builders_read_their_own_fields word_tokenizer
                  [no_key] [other]) F).
Defined.

(** ** main *)

Section MainProperties.

Variable Embeddings : Type.
Variable Embeddings_init : files Embeddings -> string -> outcome Embeddings.
Variable Tokenizer_init : Embeddings -> Tokenizer.

Local Abbreviation run := (main Embeddings_init Tokenizer_init).
Local Abbreviation IO' := (IO Embeddings).

Local Notation "x <~ m ;; k" := (io_bind m (fun x => k))
  (at level 61, m at next level, right associativity).

(** What [main] does once it has the tokenizer. *)
Local Abbreviation datasets_part tokenizer :=
  (data <~ load_json_lines "./data/train.jsonl" ;;
   tagged <~ raise_of (process_seq_tag_samples tokenizer data) ;;
   _ <~ dump_seq_tag_dataset tagged "./data/seq_tag_train_dataset.pkl"
          (pad_token_idx tokenizer) ;;
   _ <~ dump_seq2seq_dataset (process_seq2seq_samples tokenizer data)
          "./data/seq2seq_train_dataset.pkl" (pad_token_idx tokenizer) ;;
   data <~ load_json_lines "./data/valid.jsonl" ;;
   tagged <~ raise_of (process_seq_tag_samples tokenizer data) ;;
   _ <~ dump_seq_tag_dataset tagged "./data/seq_tag_valid_dataset.pkl"
          (pad_token_idx tokenizer) ;;
   _ <~ dump_seq2seq_dataset (process_seq2seq_samples tokenizer data)
          "./data/seq2seq_valid_dataset.pkl" (pad_token_idx tokenizer) ;;
   data <~ load_json_lines "./data/test.jsonl" ;;
   tagged <~ raise_of (process_seq_tag_samples tokenizer data) ;;
   _ <~ dump_seq_tag_dataset tagged "./data/seq_tag_test_dataset.pkl"
          (pad_token_idx tokenizer) ;;
   _ <~ dump_seq2seq_dataset (process_seq2seq_samples tokenizer data)
          "./data/seq2seq_test_dataset.pkl" (pad_token_idx tokenizer) ;;
   io_ret tt).

Lemma update_same (fs : files Embeddings) (path : string)
    (c : content Embeddings) :
  update fs path c path = Some c.
Proof. unfold update. now rewrite String.eqb_refl. Qed.

Lemma update_other (fs : files Embeddings) (path p : string)
    (c : content Embeddings) :
  String.eqb p path = false -> update fs path c p = fs p.
Proof. unfold update. now intros ->. Qed.

(** *** Which files a statement may write *)

Lemma unchanged_outside_refl (paths : list string) (fs : files Embeddings) :
  unchanged_outside paths fs fs.
Proof. now intros p _. Qed.

Lemma unchanged_outside_trans (paths : list string)
    (fs1 fs2 fs3 : files Embeddings) :
  unchanged_outside paths fs1 fs2 ->
  unchanged_outside paths fs2 fs3 ->
  unchanged_outside paths fs1 fs3.
Proof. intros H12 H23 p Hp. now rewrite (H23 p Hp), (H12 p Hp). Qed.

Lemma writes_within_bind {A B : Type} (paths : list string) (m : IO' A)
    (k : A -> IO' B) :
  writes_within paths m ->
  (forall a, writes_within paths (k a)) ->
  writes_within paths (io_bind m k).
Proof.
  intros Hm Hk fs. unfold io_bind. specialize (Hm fs).
  destruct (m fs) as [fs' [a|e]]; simpl in *.
  - eapply unchanged_outside_trans; [exact Hm | apply Hk].
  - exact Hm.
Qed.

Lemma writes_within_read_only {A : Type} (paths : list string) (m : IO' A) :
  (forall fs, fst (m fs) = fs) -> writes_within paths m.
Proof. intros H fs. rewrite H. apply unchanged_outside_refl. Qed.

Lemma writes_within_write_file (paths : list string) (path : string)
    (c : content Embeddings) :
  In path paths -> writes_within paths (write_file path c).
Proof.
  intros Hin fs p Hp. simpl. apply update_other.
  apply String.eqb_neq. intros ->. contradiction.
Qed.

Lemma writes_within_load_json_lines (paths : list string) (path : string) :
  writes_within paths (@load_json_lines Embeddings path).
Proof.
  apply writes_within_read_only. intros fs.
  unfold load_json_lines, io_bind, read_file.
  destruct (fs path) as [[| | | |]|]; reflexivity.
Qed.

Lemma writes_within_raise_of {A : Type} (paths : list string) (r : result A) :
  writes_within paths (@raise_of Embeddings A r).
Proof. apply writes_within_read_only. intros fs. now destruct r. Qed.

Lemma writes_within_split (paths : list string) (tokenizer : Tokenizer)
    (data_path tag_path seq2seq_path : string) (rest : IO' unit) :
  In tag_path paths ->
  In seq2seq_path paths ->
  writes_within paths rest ->
  writes_within paths
    (data <~ load_json_lines data_path ;;
     tagged <~ raise_of (process_seq_tag_samples tokenizer data) ;;
     _ <~ dump_seq_tag_dataset tagged tag_path (pad_token_idx tokenizer) ;;
     _ <~ dump_seq2seq_dataset (process_seq2seq_samples tokenizer data)
            seq2seq_path (pad_token_idx tokenizer) ;;
     rest).
Proof.
  intros Htag Hs2s Hrest.
  apply writes_within_bind; [apply writes_within_load_json_lines|]. intros data.
  apply writes_within_bind; [apply writes_within_raise_of|]. intros tagged.
  apply writes_within_bind; [now apply writes_within_write_file|]. intros _.
  apply writes_within_bind; [now apply writes_within_write_file|]. intros _.
  exact Hrest.
Qed.

Lemma writes_within_weaken {A : Type} (paths paths' : list string)
    (m : IO' A) :
  incl paths paths' -> writes_within paths m -> writes_within paths' m.
Proof. intros Hi H fs p Hp. apply H. intros Hin. apply Hp, Hi, Hin. Qed.

Lemma datasets_part_writes (tokenizer : Tokenizer) :
  writes_within (train_paths ++ valid_paths ++ test_paths)
    (datasets_part tokenizer : IO' unit).
Proof.
  apply writes_within_split; [simpl; tauto | simpl; tauto |].
  apply writes_within_split; [simpl; tauto | simpl; tauto |].
  apply writes_within_split; [simpl; tauto | simpl; tauto |].
  apply writes_within_read_only. reflexivity.
Qed.

(** X8.  Whatever the files hold and however the run ends, [main] creates
    or replaces no file other than the embeddings cache and the six
    dataset files: every other path, the three input files among them,
    holds afterwards what it held before. *)
Theorem main_writes_only_its_outputs (embeddings_file : string) :
  writes_within written_paths (run embeddings_file).
Proof.
  unfold main.
  apply writes_within_bind.
  { apply writes_within_read_only. intros fs. unfold path_exists.
    now destruct (fs _). }
  intros cached. apply writes_within_bind.
  { destruct cached; simpl.
    - apply writes_within_read_only. intros fs.
      unfold load_embeddings, io_bind, read_file.
      destruct (fs _) as [[| | | |]|]; reflexivity.
    - apply writes_within_bind.
      + apply writes_within_read_only. reflexivity.
      + intros e. apply writes_within_bind;
          [apply writes_within_write_file; simpl; tauto|].
        intros _. apply writes_within_read_only. reflexivity. }
  intros embeddings. cbv zeta.
  apply (writes_within_weaken (paths := train_paths ++ valid_paths ++ test_paths));
    [|apply datasets_part_writes].
  unfold written_paths. intros p Hp. now right.
Qed.

(** *** Running the statements *)

Lemma split_runs (tokenizer : Tokenizer)
    (data_path tag_path seq2seq_path : string) (rest : IO' unit)
    (fs : files Embeddings) (data : list Sample.t) (tagged : list SeqTag.t) :
  fs data_path = Some (JsonLines Embeddings data) ->
  process_seq_tag_samples tokenizer data = Ok tagged ->
  (data <~ load_json_lines data_path ;;
   tagged <~ raise_of (process_seq_tag_samples tokenizer data) ;;
   _ <~ dump_seq_tag_dataset tagged tag_path (pad_token_idx tokenizer) ;;
   _ <~ dump_seq2seq_dataset (process_seq2seq_samples tokenizer data)
          seq2seq_path (pad_token_idx tokenizer) ;;
   rest) fs
  = rest
      (update
         (update fs tag_path
            (SeqTaggingPickle Embeddings
               (SeqTaggingDataset_init tagged (pad_token_idx tokenizer) 300)))
         seq2seq_path
         (Seq2SeqPickle Embeddings
            (Seq2SeqDataset_init (process_seq2seq_samples tokenizer data)
               (pad_token_idx tokenizer) 300 80))).
Proof.
  intros Hfile Hok.
  unfold io_bind at 1. unfold load_json_lines, io_bind at 1, read_file.
  rewrite Hfile. unfold io_ret at 1.
  unfold io_bind at 1. rewrite Hok. reflexivity.
Qed.

Lemma split_raises (tokenizer : Tokenizer)
    (data_path tag_path seq2seq_path : string) (rest : IO' unit)
    (fs : files Embeddings) (data : list Sample.t) (e : PyError) :
  fs data_path = Some (JsonLines Embeddings data) ->
  process_seq_tag_samples tokenizer data = Err e ->
  (data <~ load_json_lines data_path ;;
   tagged <~ raise_of (process_seq_tag_samples tokenizer data) ;;
   _ <~ dump_seq_tag_dataset tagged tag_path (pad_token_idx tokenizer) ;;
   _ <~ dump_seq2seq_dataset (process_seq2seq_samples tokenizer data)
          seq2seq_path (pad_token_idx tokenizer) ;;
   rest) fs
  = (fs, Failed (Raised e)).
Proof.
  intros Hfile Herr.
  unfold io_bind at 1. unfold load_json_lines, io_bind at 1, read_file.
  rewrite Hfile. unfold io_ret at 1.
  unfold io_bind at 1. rewrite Herr. reflexivity.
Qed.

Lemma main_with_embeddings (embeddings_file : string) (fs : files Embeddings)
    (e : Embeddings) :
  embeddings_ready Embeddings_init embeddings_file fs e ->
  exists fs1,
    run embeddings_file fs = datasets_part (Tokenizer_init e) fs1 /\
    fs1 "./embedding.pkl"%string = Some (EmbeddingsPickle e) /\
    (forall p, String.eqb p "./embedding.pkl" = false -> fs1 p = fs p).
Proof.
  intros [Hit | [Miss Hinit]]; unfold main.
  - exists fs. split; [|now split].
    unfold io_bind at 1, path_exists. rewrite Hit. simpl negb. cbv iota.
    unfold io_bind at 1, load_embeddings, io_bind at 1, read_file.
    rewrite Hit. reflexivity.
  - exists (update fs "./embedding.pkl" (EmbeddingsPickle e)).
    split; [|split].
    + unfold io_bind at 1, path_exists. rewrite Miss. simpl negb. cbv iota.
      unfold io_bind at 1 2. rewrite Hinit. reflexivity.
    + apply update_same.
    + intros p Hp. now apply update_other.
Qed.

Ltac lookup :=
  repeat first [rewrite update_same | rewrite update_other by reflexivity].

(** X9.  When the embeddings are there (cached, or built from the
    embeddings file) and the three input files hold well-formed samples,
    [main] ends without an exception, and afterwards the cache holds the
    embeddings and each split has its two datasets at its two paths: the
    tagging dataset of the samples with sentence bounds and the
    sequence-to-sequence dataset of all samples, both built with the
    tokenizer of these embeddings and its padding index. *)
Theorem main_writes_all_datasets (embeddings_file : string)
    (fs : files Embeddings) (e : Embeddings) (train valid test : list Sample.t) :
  embeddings_ready Embeddings_init embeddings_file fs e ->
  fs "./data/train.jsonl"%string = Some (JsonLines Embeddings train) ->
  fs "./data/valid.jsonl"%string = Some (JsonLines Embeddings valid) ->
  fs "./data/test.jsonl"%string = Some (JsonLines Embeddings test) ->
  forallb tag_well_formed (train ++ valid ++ test) = true ->
  exists fs',
    run embeddings_file fs = (fs', Done tt) /\
    fs' "./embedding.pkl"%string = Some (EmbeddingsPickle e) /\
    split_written (Tokenizer_init e) train train_paths fs' /\
    split_written (Tokenizer_init e) valid valid_paths fs' /\
    split_written (Tokenizer_init e) test test_paths fs'.
Proof.
  intros Hready Htrain Hvalid Htest W.
  rewrite !forallb_app in W.
  apply andb_true_iff in W. destruct W as [W1 W].
  apply andb_true_iff in W. destruct W as [W2 W3].
  destruct (process_seq_tag_loop_total (Tokenizer_init e) train [] W1)
    as [t1 T1].
  destruct (process_seq_tag_loop_total (Tokenizer_init e) valid [] W2)
    as [t2 T2].
  destruct (process_seq_tag_loop_total (Tokenizer_init e) test [] W3)
    as [t3 T3].
  fold (process_seq_tag_samples (Tokenizer_init e) train) in T1.
  fold (process_seq_tag_samples (Tokenizer_init e) valid) in T2.
  fold (process_seq_tag_samples (Tokenizer_init e) test) in T3.
  destruct (main_with_embeddings Hready)
    as (fs1 & -> & Hcache & Hother).
  erewrite split_runs; [| rewrite Hother by reflexivity; exact Htrain | exact T1].
  erewrite split_runs;
    [| lookup; rewrite Hother by reflexivity; exact Hvalid | exact T2].
  erewrite split_runs;
    [| lookup; rewrite Hother by reflexivity; exact Htest | exact T3].
  eexists. split; [reflexivity|].
  split; [lookup; exact Hcache|].
  split; [|split].
  - exists t1. split; [exact T1|]. simpl nth. split; now lookup.
  - exists t2. split; [exact T2|]. simpl nth. split; now lookup.
  - exists t3. split; [exact T3|]. simpl nth. split; now lookup.
Qed.

Lemma main_cache_hit (fs : files Embeddings) (e : Embeddings)
    (init : files Embeddings -> string -> outcome Embeddings)
    (embeddings_file : string) :
  fs "./embedding.pkl"%string = Some (EmbeddingsPickle e) ->
  main init Tokenizer_init embeddings_file fs
  = datasets_part (Tokenizer_init e) fs.
Proof.
  intros Hit. unfold main.
  unfold io_bind at 1, path_exists. rewrite Hit. simpl negb. cbv iota.
  unfold io_bind at 1, load_embeddings, io_bind at 1, read_file.
  rewrite Hit. reflexivity.
Qed.

(** X10.  When the cache [./embedding.pkl] holds pickled embeddings,
    [main] loads them and never builds embeddings from the embeddings
    file: the run is the same whatever path is passed and whatever
    building from it would do. *)
Theorem main_uses_the_cache (fs : files Embeddings) (e : Embeddings) :
  fs "./embedding.pkl"%string = Some (EmbeddingsPickle e) ->
  forall (init' : files Embeddings -> string -> outcome Embeddings)
         (embeddings_file embeddings_file' : string),
    run embeddings_file fs = main init' Tokenizer_init embeddings_file' fs.
Proof.
  intros Hit init' f f'.
  now rewrite (@main_cache_hit fs e Embeddings_init f Hit),
    (@main_cache_hit fs e init' f' Hit).
Qed.

(** X11.  Without a cache, [main] builds the embeddings from the
    embeddings file before it reads any data.  If building raises, the
    run ends with that exception and no file is written; if it gives
    embeddings, they are in the cache afterwards, however the rest of the
    run ends. *)
Theorem main_builds_the_cache_first (embeddings_file : string)
    (fs : files Embeddings) :
  fs "./embedding.pkl"%string = None ->
  (forall err,
     Embeddings_init fs embeddings_file = Failed err ->
     run embeddings_file fs = (fs, Failed err)) /\
  (forall e,
     Embeddings_init fs embeddings_file = Done e ->
     fst (run embeddings_file fs) "./embedding.pkl"%string
     = Some (EmbeddingsPickle e)).
Proof.
  intros Miss. split.
  - intros err Hinit. unfold main.
    unfold io_bind at 1, path_exists. rewrite Miss. simpl negb. cbv iota.
    unfold io_bind at 1 2. rewrite Hinit. reflexivity.
  - intros e Hinit.
    destruct (@main_with_embeddings embeddings_file fs e
                (or_intror (conj Miss Hinit)))
      as (fs1 & -> & Hcache & _).
    rewrite (datasets_part_writes (Tokenizer_init e) fs1); [exact Hcache|].
    simpl. intuition discriminate.
Qed.

(** X12.  A split that raises stops the run where it is.  If the training
    samples are well formed and the tagging pass raises [e] on the
    validation samples, [main] ends with [e]; the two training datasets
    have been written and stay, and nothing is written at the paths of the
    validation and test datasets. *)
Theorem main_stops_at_the_failing_split (embeddings_file : string)
    (fs : files Embeddings) (e : Embeddings) (train valid : list Sample.t)
    (err : PyError) :
  embeddings_ready Embeddings_init embeddings_file fs e ->
  fs "./data/train.jsonl"%string = Some (JsonLines Embeddings train) ->
  fs "./data/valid.jsonl"%string = Some (JsonLines Embeddings valid) ->
  forallb tag_well_formed train = true ->
  process_seq_tag_samples (Tokenizer_init e) valid = Err err ->
  exists fs',
    run embeddings_file fs = (fs', Failed (Raised err)) /\
    split_written (Tokenizer_init e) train train_paths fs' /\
    (forall p, In p (valid_paths ++ test_paths) -> fs' p = fs p).
Proof.
  intros Hready Htrain Hvalid W1 Herr.
  destruct (process_seq_tag_loop_total (Tokenizer_init e) train [] W1)
    as [t1 T1].
  fold (process_seq_tag_samples (Tokenizer_init e) train) in T1.
  destruct (main_with_embeddings Hready)
    as (fs1 & -> & Hcache & Hother).
  erewrite split_runs; [| rewrite Hother by reflexivity; exact Htrain | exact T1].
  erewrite split_raises;
    [| lookup; rewrite Hother by reflexivity; exact Hvalid | exact Herr].
  eexists. split; [reflexivity|]. split.
  - exists t1. split; [exact T1|]. simpl nth. split; now lookup.
  - intros p Hp. simpl in Hp.
    destruct Hp as [<-|[<-|[<-|[<-|[]]]]]; lookup; now apply Hother.
Qed.

End MainProperties.

Lemma main_writes_all_datasets_witness :
  let fs := demo_files [from_the_end] in
  embeddings_ready demo_Embeddings_init "glove.txt" fs tt /\
  fs "./data/train.jsonl"%string = Some (JsonLines unit [d1; no_bounds]) /\
  fs "./data/valid.jsonl"%string = Some (JsonLines unit [from_the_end]) /\
  fs "./data/test.jsonl"%string = Some (JsonLines unit [unlabelled]) /\
  forallb tag_well_formed ([d1; no_bounds] ++ [from_the_end] ++ [unlabelled])
  = true /\
  exists fs',
    demo_main "glove.txt" fs = (fs', Done tt) /\
    fs' "./embedding.pkl"%string = Some (EmbeddingsPickle tt) /\
    split_written word_tokenizer [d1; no_bounds] train_paths fs' /\
    split_written word_tokenizer [from_the_end] valid_paths fs' /\
    split_written word_tokenizer [unlabelled] test_paths fs'.
Proof.
  intros fs.
  assert (Hready : embeddings_ready demo_Embeddings_init "glove.txt" fs tt)
    by (right; split; reflexivity).
  split; [exact Hready|].
  split; [reflexivity|]. split; [reflexivity|]. split; [reflexivity|].
  split; [reflexivity|].
  exact (@main_writes_all_datasets unit demo_Embeddings_init
           demo_Tokenizer_init "glove.txt" fs tt [d1; no_bounds]
           [from_the_end] [unlabelled] Hready eq_refl eq_refl eq_refl eq_refl).
Defined.

Lemma main_uses_the_cache_witness :
  let fs := update (demo_files [from_the_end]) "./embedding.pkl"
              (EmbeddingsPickle tt) in
  fs "./embedding.pkl"%string = Some (EmbeddingsPickle tt) /\
  demo_main "glove.txt" fs = demo_main "no such file" fs.
Proof.
  intros fs. split; [reflexivity|].
  exact (@main_uses_the_cache unit demo_Embeddings_init demo_Tokenizer_init
           fs tt eq_refl demo_Embeddings_init "glove.txt" "no such file").
Defined.

Lemma main_builds_the_cache_first_witness :
  let fs := demo_files [past_the_end] in
  fs "./embedding.pkl"%string = None /\
  demo_main "no such file" fs
  = (fs, Failed (FileNotFoundError "no such file")) /\
  fst (demo_main "glove.txt" fs) "./embedding.pkl"%string
  = Some (EmbeddingsPickle tt).
Proof.
  intros fs. split; [reflexivity|].
  destruct (@main_builds_the_cache_first unit demo_Embeddings_init
              demo_Tokenizer_init "no such file" fs eq_refl) as [Hfail _].
  destruct (@main_builds_the_cache_first unit demo_Embeddings_init
              demo_Tokenizer_init "glove.txt" fs eq_refl) as [_ Hdone].
  split; [exact (Hfail _ eq_refl) | exact (Hdone tt eq_refl)].
Defined.

Lemma main_stops_at_the_failing_split_witness :
  let fs := demo_files [past_the_end] in
  embeddings_ready demo_Embeddings_init "glove.txt" fs tt /\
  fs "./data/train.jsonl"%string = Some (JsonLines unit [d1; no_bounds]) /\
  fs "./data/valid.jsonl"%string = Some (JsonLines unit [past_the_end]) /\
  forallb tag_well_formed [d1; no_bounds] = true /\
  process_seq_tag_samples word_tokenizer [past_the_end] = Err IndexError /\
  exists fs',
    demo_main "glove.txt" fs = (fs', Failed (Raised IndexError)) /\
    split_written word_tokenizer [d1; no_bounds] train_paths fs' /\
    (forall p, In p (valid_paths ++ test_paths) -> fs' p = fs p).
Proof.
  intros fs.
  assert (Hready : embeddings_ready demo_Embeddings_init "glove.txt" fs tt)
    by (right; split; reflexivity).
  split; [exact Hready|].
  split; [reflexivity|]. split; [reflexivity|]. split; [reflexivity|].
  split; [reflexivity|].
  exact (@main_stops_at_the_failing_split unit demo_Embeddings_init
           demo_Tokenizer_init "glove.txt" fs tt [d1; no_bounds]
           [past_the_end] IndexError Hready eq_refl eq_refl eq_refl eq_refl).
Defined.
